(** * ReboundPy: live play-by-play statistics

    A shallow embedding of [src/src/models.py], [src/src/stream.py] and
    the parts of [src/src/http.py] they rely on, followed by the properties
    of the specification that concern them.

    Conventions of the embedding:
    - Python [str] values are [string]s whose characters are read as the
      code points 0..255; on that range [re.IGNORECASE] against the ASCII
      patterns of the program is ASCII case folding.
    - Python [int] values are [Z].
    - A method that mutates [self] becomes a function returning the new
      object; [print] appends a line to an explicit output.
    - A raised exception is a value of [exn] in the left of a sum. *)

From Stdlib Require Import String Ascii List ZArith Bool Lia.
From Stdlib Require Import DecimalString DecimalPos.
Import ListNotations.

#[local] Set Warnings "-register-all".

Local Open Scope string_scope.
Local Open Scope list_scope.
Local Open Scope Z_scope.

(** ** Text *)

Module Text.

Definition newline : ascii := "010"%char.

(** [str.lower] on one character of the range the embedding covers. *)
Definition lower (c : ascii) : ascii :=
  let n := nat_of_ascii c in
  if (Nat.leb 65 n && Nat.leb n 90)%bool then ascii_of_nat (n + 32) else c.

Fixpoint lower_string (s : string) : string :=
  match s with
  | EmptyString => EmptyString
  | String c s' => String (lower c) (lower_string s')
  end.

(** [s.startswith(p)] *)
Fixpoint startswith (p s : string) : bool :=
  match p, s with
  | EmptyString, _ => true
  | String a p', String b s' => (Ascii.eqb a b && startswith p' s')%bool
  | String _ _, EmptyString => false
  end.

(** [needle in hay] on strings. *)
Fixpoint contains (needle hay : string) : bool :=
  (startswith needle hay ||
   match hay with
   | EmptyString => false
   | String _ hay' => contains needle hay'
   end)%bool.


(** [str(n)] for an [int]. *)
Definition str (n : Z) : string := NilZero.string_of_int (Z.to_int n).

Lemma lower_string_app (a b : string) :
  lower_string (a ++ b) = (lower_string a ++ lower_string b)%string.
Proof.
  induction a as [|c a IH]; simpl; [reflexivity|]. now rewrite IH.
Qed.

Lemma startswith_split (p s : string) :
  startswith p s = true <-> exists rest, s = (p ++ rest)%string.
Proof.
  revert s; induction p as [|a p IH]; intros s; simpl.
  - split; [intros _; now exists s | reflexivity].
  - destruct s as [|b s]; [split; [discriminate | intros [r Hr]; discriminate]|].
    rewrite andb_true_iff, Ascii.eqb_eq, IH. split.
    + intros [-> [r ->]]. now exists r.
    + intros [r Hr]. injection Hr as -> ->. split; [reflexivity | now exists r].
Qed.

Lemma contains_split (needle hay : string) :
  contains needle hay = true <->
  exists pre post, hay = (pre ++ needle ++ post)%string.
Proof.
  induction hay as [|c hay IH].
  - simpl. rewrite orb_false_r, startswith_split. split.
    + intros [r Hr]. now exists EmptyString, r.
    + intros [pre [post H]]. destruct pre; [now exists post|discriminate].
  - cbn [contains]. rewrite orb_true_iff, startswith_split, IH. split.
    + intros [[r Hr] | [pre [post H]]].
      * now exists EmptyString, r.
      * exists (String c pre), post. simpl. now rewrite H.
    + intros [pre [post H]]. destruct pre as [|a pre].
      * left. now exists post.
      * right. simpl in H. injection H as _ H. now exists pre, post.
Qed.


End Text.

(** ** Regular expressions: the fragment of [re] the program uses

    [re.search(pattern, text, re.IGNORECASE)] is used by the program only
    for its truth value, so the embedding decides membership with
    derivatives and relates it to the usual matching relation. *)

Module Regex.
Import Text.

Inductive re : Type :=
| Void                      (* matches nothing; arises only from derivatives *)
| Eps                       (* the empty pattern *)
| Chr (c : ascii)           (* a literal character, compared ignoring case *)
| Dot                       (* [.]: any character except a newline *)
| Cat (r1 r2 : re)          (* r1r2 *)
| Alt (r1 r2 : re)          (* r1|r2 *)
| Star (r : re).            (* r* *)

(** A literal run of characters. *)
Fixpoint Lit (s : string) : re :=
  match s with
  | EmptyString => Eps
  | String c s' => Cat (Chr c) (Lit s')
  end.

Inductive Matches : re -> string -> Prop :=
| MEps : Matches Eps ""
| MChr c d : lower c = lower d -> Matches (Chr c) (String d "")
| MDot d : d <> newline -> Matches Dot (String d "")
| MCat r1 r2 s1 s2 :
    Matches r1 s1 -> Matches r2 s2 -> Matches (Cat r1 r2) (s1 ++ s2)
| MAltL r1 r2 s : Matches r1 s -> Matches (Alt r1 r2) s
| MAltR r1 r2 s : Matches r2 s -> Matches (Alt r1 r2) s
| MStar0 r : Matches (Star r) ""
| MStarS r s1 s2 :
    Matches r s1 -> Matches (Star r) s2 -> Matches (Star r) (s1 ++ s2).

Fixpoint nullable (r : re) : bool :=
  match r with
  | Void | Chr _ | Dot => false
  | Eps | Star _ => true
  | Cat r1 r2 => nullable r1 && nullable r2
  | Alt r1 r2 => nullable r1 || nullable r2
  end.

Fixpoint deriv (c : ascii) (r : re) : re :=
  match r with
  | Void | Eps => Void
  | Chr d => if Ascii.eqb (lower d) (lower c) then Eps else Void
  | Dot => if Ascii.eqb c newline then Void else Eps
  | Cat r1 r2 =>
      if nullable r1 then Alt (Cat (deriv c r1) r2) (deriv c r2)
      else Cat (deriv c r1) r2
  | Alt r1 r2 => Alt (deriv c r1) (deriv c r2)
  | Star r1 => Cat (deriv c r1) (Star r1)
  end.

(** [re.match]: some prefix of [s] matches [r]. *)
Fixpoint match_here (r : re) (s : string) : bool :=
  nullable r ||
  match s with
  | EmptyString => false
  | String c s' => match_here (deriv c r) s'
  end.

(** [re.search(r, s, re.IGNORECASE)] as a truth value: some substring of
    [s] matches [r]. *)
Fixpoint search (r : re) (s : string) : bool :=
  match_here r s ||
  match s with
  | EmptyString => false
  | String _ s' => search r s'
  end.

Lemma app_empty (a b : string) : (a ++ b)%string = "" -> a = "" /\ b = "".
Proof. destruct a; [now simpl|discriminate]. Qed.

Lemma app_empty_r (a : string) : (a ++ "")%string = a.
Proof. induction a as [|c a IH]; simpl; [reflexivity | now rewrite IH]. Qed.

Lemma app_assoc (a b c : string) :
  ((a ++ b) ++ c)%string = (a ++ b ++ c)%string.
Proof. induction a as [|x a IH]; simpl; [reflexivity | now rewrite IH]. Qed.

Lemma cat_inv (r1 r2 : re) (s : string) :
  Matches (Cat r1 r2) s ->
  exists s1 s2, s = (s1 ++ s2)%string /\ Matches r1 s1 /\ Matches r2 s2.
Proof. intros H. inversion H; subst. eauto. Qed.

Lemma nullable_spec (r : re) : nullable r = true <-> Matches r "".
Proof.
  induction r; simpl.
  - split; [discriminate | intros H; inversion H].
  - split; [constructor | reflexivity].
  - split; [discriminate | intros H; inversion H].
  - split; [discriminate | intros H; inversion H].
  - rewrite andb_true_iff, IHr1, IHr2. split.
    + intros [H1 H2]. change "" with ("" ++ "")%string. now constructor.
    + intros H. apply cat_inv in H as [s1 [s2 [E [H1 H2]]]].
      symmetry in E. apply app_empty in E as [-> ->]. now split.
  - rewrite orb_true_iff, IHr1, IHr2. split.
    + intros [H|H]; [now apply MAltL | now apply MAltR].
    + intros H. inversion H; subst; [now left | now right].
  - split; [constructor | reflexivity].
Qed.

Lemma star_cons_inv (r : re) (c : ascii) (s : string) :
  Matches (Star r) (String c s) ->
  exists s1 s2, s = (s1 ++ s2)%string /\
                Matches r (String c s1) /\ Matches (Star r) s2.
Proof.
  intros H. remember (Star r) as q eqn:Eq. remember (String c s) as t eqn:Et.
  revert Et. induction H; try discriminate; intros Et.
  injection Eq as ->. destruct s1 as [|d s1].
  - simpl in Et. now apply IHMatches2.
  - simpl in Et. injection Et as -> <-. now exists s1, s2.
Qed.

Lemma deriv_spec (c : ascii) (r : re) (s : string) :
  Matches (deriv c r) s <-> Matches r (String c s).
Proof.
  revert s; induction r; intros s; simpl.
  - split; intros H; inversion H.
  - split; intros H; inversion H.
  - destruct (Ascii.eqb (lower c0) (lower c)) eqn:E.
    + apply Ascii.eqb_eq in E. split; intros H; inversion H; subst.
      * now constructor.
      * constructor.
    + apply Ascii.eqb_neq in E. split; intros H; inversion H; subst.
      contradiction.
  - destruct (Ascii.eqb c newline) eqn:E.
    + apply Ascii.eqb_eq in E. split; intros H; inversion H; subst.
      contradiction.
    + apply Ascii.eqb_neq in E. split; intros H; inversion H; subst.
      * now constructor.
      * constructor.
  - assert (Hcat : forall t, Matches (Cat (deriv c r1) r2) t ->
                             Matches (Cat r1 r2) (String c t)).
    { intros t H. apply cat_inv in H as [s1 [s2 [-> [H1 H2]]]].
      apply IHr1 in H1. change (String c (s1 ++ s2)) with (String c s1 ++ s2)%string.
      now constructor. }
    assert (Hinv : Matches (Cat r1 r2) (String c s) ->
                   Matches (Cat (deriv c r1) r2) s \/
                   (Matches r1 "" /\ Matches r2 (String c s))).
    { intros H. apply cat_inv in H as [s1 [s2 [E [H1 H2]]]].
      destruct s1 as [|d s1]; simpl in E.
      - right. subst. now split.
      - injection E as <- ->. left. constructor; [now apply IHr1 | assumption]. }
    destruct (nullable r1) eqn:N.
    + split.
      * intros H. inversion H; subst; [now apply Hcat|].
        change (String c s) with ("" ++ String c s)%string.
        constructor; [now apply nullable_spec | now apply IHr2].
      * intros H. destruct (Hinv H) as [H'|[_ H']];
          [now apply MAltL | apply MAltR; now apply IHr2].
    + split; [apply Hcat|].
      intros H. destruct (Hinv H) as [H'|[H' _]]; [assumption|].
      apply nullable_spec in H'. congruence.
  - split; intros H; inversion H; subst.
    + apply MAltL. now apply IHr1.
    + apply MAltR. now apply IHr2.
    + apply MAltL. now apply IHr1.
    + apply MAltR. now apply IHr2.
  - split.
    + intros H. apply cat_inv in H as [s1 [s2 [-> [H1 H2]]]].
      apply IHr in H1.
      change (String c (s1 ++ s2)) with (String c s1 ++ s2)%string.
      now constructor.
    + intros H. apply star_cons_inv in H as [s1 [s2 [-> [H1 H2]]]].
      constructor; [now apply IHr | assumption].
Qed.

Lemma match_here_spec (r : re) (s : string) :
  match_here r s = true <->
  exists m rest, s = (m ++ rest)%string /\ Matches r m.
Proof.
  revert r; induction s as [|c s IH]; intros r; cbn [match_here].
  - rewrite orb_false_r, nullable_spec. split.
    + intros H. now exists "", "".
    + intros [m [rest [E H]]]. symmetry in E.
      apply app_empty in E as [-> _]. assumption.
  - rewrite orb_true_iff, nullable_spec, IH. split.
    + intros [H | [m [rest [-> H]]]].
      * now exists "", (String c s).
      * exists (String c m), rest. split; [reflexivity | now apply deriv_spec].
    + intros [m [rest [E H]]]. destruct m as [|d m].
      * now left.
      * right. simpl in E. injection E as <- ->.
        exists m, rest. split; [reflexivity | now apply deriv_spec].
Qed.

(** [search] decides that some substring matches. *)
Theorem search_spec (r : re) (s : string) :
  search r s = true <->
  exists pre m post, s = (pre ++ m ++ post)%string /\ Matches r m.
Proof.
  induction s as [|c s IH]; cbn [search].
  - rewrite orb_false_r, match_here_spec. split.
    + intros [m [rest [E H]]]. now exists "", m, rest.
    + intros [pre [m [post [E H]]]]. symmetry in E.
      apply app_empty in E as [-> E]. now exists m, post.
  - rewrite orb_true_iff, match_here_spec, IH. split.
    + intros [[m [rest [E H]]] | [pre [m [post [-> H]]]]].
      * now exists "", m, rest.
      * now exists (String c pre), m, post.
    + intros [pre [m [post [E H]]]]. destruct pre as [|d pre].
      * left. now exists m, post.
      * right. simpl in E. injection E as _ ->. now exists pre, m, post.
Qed.


End Regex.

(** ** The data model of [src/src/models.py]: plays and players *)

Module Models.
Import Text Regex.

Record Play : Type := mkPlay {
  play_id : Z;
  play_text : string;
  clock : string;
  period : Z
}.

Record Player : Type := mkPlayer {
  name : string;
  number : Z;
  position : string;
  starter : Z;
  on_court : Z;
  minutes_played : string;
  field_goals_made : Z;  (* header FGM *)
  field_goals_attempted : Z;  (* header FGA *)
  three_point_field_goals_made : Z;  (* header 3FGM *)
  three_point_field_goals_attempted : Z;  (* header 3FGA *)
  free_throws_made : Z;  (* header FTM *)
  free_throws_attempted : Z;  (* header FTA *)
  points : Z;  (* header PTS *)
  offensive_rebounds : Z;  (* header ORebs *)
  defensive_rebounds : Z;  (* header DRebs *)
  total_rebounds : Z;  (* header Rebs *)
  assists : Z;  (* header A *)
  turnovers : Z;  (* header TO *)
  steals : Z;  (* header S *)
  blocks : Z;  (* header B *)
  fouls : Z;  (* header F *)
  disqualifications : Z;  (* header DQ *)
  technical_fouls : Z;  (* header TFoul *)
  plays : list Play
}.

(** The counting statistics, named by their column header. *)
Inductive stat : Type :=
| H_FGM
| H_FGA
| H_3FGM
| H_3FGA
| H_FTM
| H_FTA
| H_PTS
| H_ORebs
| H_DRebs
| H_Rebs
| H_A
| H_TO
| H_S
| H_B
| H_F
| H_DQ
| H_TFoul.

Definition stat_fields : list stat :=
  [H_FGM; H_FGA; H_3FGM; H_3FGA; H_FTM; H_FTA; H_PTS; H_ORebs; H_DRebs; H_Rebs; H_A; H_TO; H_S; H_B; H_F; H_DQ; H_TFoul].

(** [getattr(self, field_name)] *)
Definition getattr (self : Player) (f : stat) : Z :=
  match f with
  | H_FGM => field_goals_made self
  | H_FGA => field_goals_attempted self
  | H_3FGM => three_point_field_goals_made self
  | H_3FGA => three_point_field_goals_attempted self
  | H_FTM => free_throws_made self
  | H_FTA => free_throws_attempted self
  | H_PTS => points self
  | H_ORebs => offensive_rebounds self
  | H_DRebs => defensive_rebounds self
  | H_Rebs => total_rebounds self
  | H_A => assists self
  | H_TO => turnovers self
  | H_S => steals self
  | H_B => blocks self
  | H_F => fouls self
  | H_DQ => disqualifications self
  | H_TFoul => technical_fouls self
  end.

(** [setattr(self, field_name, v)] *)
Definition setattr (self : Player) (f : stat) (v : Z) : Player :=
  match f with
  | H_FGM =>
      mkPlayer (name self) (number self) (position self) (starter self) (on_court self) (minutes_played self) v (field_goals_attempted self) (three_point_field_goals_made self) (three_point_field_goals_attempted self) (free_throws_made self) (free_throws_attempted self) (points self) (offensive_rebounds self) (defensive_rebounds self) (total_rebounds self) (assists self) (turnovers self) (steals self) (blocks self) (fouls self) (disqualifications self) (technical_fouls self) (plays self)
  | H_FGA =>
      mkPlayer (name self) (number self) (position self) (starter self) (on_court self) (minutes_played self) (field_goals_made self) v (three_point_field_goals_made self) (three_point_field_goals_attempted self) (free_throws_made self) (free_throws_attempted self) (points self) (offensive_rebounds self) (defensive_rebounds self) (total_rebounds self) (assists self) (turnovers self) (steals self) (blocks self) (fouls self) (disqualifications self) (technical_fouls self) (plays self)
  | H_3FGM =>
      mkPlayer (name self) (number self) (position self) (starter self) (on_court self) (minutes_played self) (field_goals_made self) (field_goals_attempted self) v (three_point_field_goals_attempted self) (free_throws_made self) (free_throws_attempted self) (points self) (offensive_rebounds self) (defensive_rebounds self) (total_rebounds self) (assists self) (turnovers self) (steals self) (blocks self) (fouls self) (disqualifications self) (technical_fouls self) (plays self)
  | H_3FGA =>
      mkPlayer (name self) (number self) (position self) (starter self) (on_court self) (minutes_played self) (field_goals_made self) (field_goals_attempted self) (three_point_field_goals_made self) v (free_throws_made self) (free_throws_attempted self) (points self) (offensive_rebounds self) (defensive_rebounds self) (total_rebounds self) (assists self) (turnovers self) (steals self) (blocks self) (fouls self) (disqualifications self) (technical_fouls self) (plays self)
  | H_FTM =>
      mkPlayer (name self) (number self) (position self) (starter self) (on_court self) (minutes_played self) (field_goals_made self) (field_goals_attempted self) (three_point_field_goals_made self) (three_point_field_goals_attempted self) v (free_throws_attempted self) (points self) (offensive_rebounds self) (defensive_rebounds self) (total_rebounds self) (assists self) (turnovers self) (steals self) (blocks self) (fouls self) (disqualifications self) (technical_fouls self) (plays self)
  | H_FTA =>
      mkPlayer (name self) (number self) (position self) (starter self) (on_court self) (minutes_played self) (field_goals_made self) (field_goals_attempted self) (three_point_field_goals_made self) (three_point_field_goals_attempted self) (free_throws_made self) v (points self) (offensive_rebounds self) (defensive_rebounds self) (total_rebounds self) (assists self) (turnovers self) (steals self) (blocks self) (fouls self) (disqualifications self) (technical_fouls self) (plays self)
  | H_PTS =>
      mkPlayer (name self) (number self) (position self) (starter self) (on_court self) (minutes_played self) (field_goals_made self) (field_goals_attempted self) (three_point_field_goals_made self) (three_point_field_goals_attempted self) (free_throws_made self) (free_throws_attempted self) v (offensive_rebounds self) (defensive_rebounds self) (total_rebounds self) (assists self) (turnovers self) (steals self) (blocks self) (fouls self) (disqualifications self) (technical_fouls self) (plays self)
  | H_ORebs =>
      mkPlayer (name self) (number self) (position self) (starter self) (on_court self) (minutes_played self) (field_goals_made self) (field_goals_attempted self) (three_point_field_goals_made self) (three_point_field_goals_attempted self) (free_throws_made self) (free_throws_attempted self) (points self) v (defensive_rebounds self) (total_rebounds self) (assists self) (turnovers self) (steals self) (blocks self) (fouls self) (disqualifications self) (technical_fouls self) (plays self)
  | H_DRebs =>
      mkPlayer (name self) (number self) (position self) (starter self) (on_court self) (minutes_played self) (field_goals_made self) (field_goals_attempted self) (three_point_field_goals_made self) (three_point_field_goals_attempted self) (free_throws_made self) (free_throws_attempted self) (points self) (offensive_rebounds self) v (total_rebounds self) (assists self) (turnovers self) (steals self) (blocks self) (fouls self) (disqualifications self) (technical_fouls self) (plays self)
  | H_Rebs =>
      mkPlayer (name self) (number self) (position self) (starter self) (on_court self) (minutes_played self) (field_goals_made self) (field_goals_attempted self) (three_point_field_goals_made self) (three_point_field_goals_attempted self) (free_throws_made self) (free_throws_attempted self) (points self) (offensive_rebounds self) (defensive_rebounds self) v (assists self) (turnovers self) (steals self) (blocks self) (fouls self) (disqualifications self) (technical_fouls self) (plays self)
  | H_A =>
      mkPlayer (name self) (number self) (position self) (starter self) (on_court self) (minutes_played self) (field_goals_made self) (field_goals_attempted self) (three_point_field_goals_made self) (three_point_field_goals_attempted self) (free_throws_made self) (free_throws_attempted self) (points self) (offensive_rebounds self) (defensive_rebounds self) (total_rebounds self) v (turnovers self) (steals self) (blocks self) (fouls self) (disqualifications self) (technical_fouls self) (plays self)
  | H_TO =>
      mkPlayer (name self) (number self) (position self) (starter self) (on_court self) (minutes_played self) (field_goals_made self) (field_goals_attempted self) (three_point_field_goals_made self) (three_point_field_goals_attempted self) (free_throws_made self) (free_throws_attempted self) (points self) (offensive_rebounds self) (defensive_rebounds self) (total_rebounds self) (assists self) v (steals self) (blocks self) (fouls self) (disqualifications self) (technical_fouls self) (plays self)
  | H_S =>
      mkPlayer (name self) (number self) (position self) (starter self) (on_court self) (minutes_played self) (field_goals_made self) (field_goals_attempted self) (three_point_field_goals_made self) (three_point_field_goals_attempted self) (free_throws_made self) (free_throws_attempted self) (points self) (offensive_rebounds self) (defensive_rebounds self) (total_rebounds self) (assists self) (turnovers self) v (blocks self) (fouls self) (disqualifications self) (technical_fouls self) (plays self)
  | H_B =>
      mkPlayer (name self) (number self) (position self) (starter self) (on_court self) (minutes_played self) (field_goals_made self) (field_goals_attempted self) (three_point_field_goals_made self) (three_point_field_goals_attempted self) (free_throws_made self) (free_throws_attempted self) (points self) (offensive_rebounds self) (defensive_rebounds self) (total_rebounds self) (assists self) (turnovers self) (steals self) v (fouls self) (disqualifications self) (technical_fouls self) (plays self)
  | H_F =>
      mkPlayer (name self) (number self) (position self) (starter self) (on_court self) (minutes_played self) (field_goals_made self) (field_goals_attempted self) (three_point_field_goals_made self) (three_point_field_goals_attempted self) (free_throws_made self) (free_throws_attempted self) (points self) (offensive_rebounds self) (defensive_rebounds self) (total_rebounds self) (assists self) (turnovers self) (steals self) (blocks self) v (disqualifications self) (technical_fouls self) (plays self)
  | H_DQ =>
      mkPlayer (name self) (number self) (position self) (starter self) (on_court self) (minutes_played self) (field_goals_made self) (field_goals_attempted self) (three_point_field_goals_made self) (three_point_field_goals_attempted self) (free_throws_made self) (free_throws_attempted self) (points self) (offensive_rebounds self) (defensive_rebounds self) (total_rebounds self) (assists self) (turnovers self) (steals self) (blocks self) (fouls self) v (technical_fouls self) (plays self)
  | H_TFoul =>
      mkPlayer (name self) (number self) (position self) (starter self) (on_court self) (minutes_played self) (field_goals_made self) (field_goals_attempted self) (three_point_field_goals_made self) (three_point_field_goals_attempted self) (free_throws_made self) (free_throws_attempted self) (points self) (offensive_rebounds self) (defensive_rebounds self) (total_rebounds self) (assists self) (turnovers self) (steals self) (blocks self) (fouls self) (disqualifications self) v (plays self)
  end.

(** [self.plays.append(play)] *)
Definition plays_append (self : Player) (play : Play) : Player :=
  mkPlayer (name self) (number self) (position self) (starter self) (on_court self) (minutes_played self) (field_goals_made self) (field_goals_attempted self) (three_point_field_goals_made self) (three_point_field_goals_attempted self) (free_throws_made self) (free_throws_attempted self) (points self) (offensive_rebounds self) (defensive_rebounds self) (total_rebounds self) (assists self) (turnovers self) (steals self) (blocks self) (fouls self) (disqualifications self) (technical_fouls self) (plays self ++ [play]).

(** The [regex] entry of a field's metadata. The fields of [Player] that
    are not counting statistics carry no such entry either, so iterating
    over [stat_fields] visits every field that has one, in declaration
    order. *)
Definition regex (f : stat) : option re :=
  match f with
  | H_FGM =>   (* (jump shot|layup).*made *)
      Some (Cat (Alt (Lit "jump shot") (Lit "layup")) (Cat (Star Dot) (Lit "made")))
  | H_FGA =>   (* free throw.*missed|made *)
      Some (Alt (Cat (Lit "free throw") (Cat (Star Dot) (Lit "missed"))) (Lit "made"))
  | H_3FGM =>  (* 3pt.*made *)
      Some (Cat (Lit "3pt") (Cat (Star Dot) (Lit "made")))
  | H_3FGA =>  (* 3pt.*missed|made *)
      Some (Alt (Cat (Lit "3pt") (Cat (Star Dot) (Lit "missed"))) (Lit "made"))
  | H_FTM =>   (* free throw.*made *)
      Some (Cat (Lit "free throw") (Cat (Star Dot) (Lit "made")))
  | H_FTA =>   (* free throw.*missed|made *)
      Some (Alt (Cat (Lit "free throw") (Cat (Star Dot) (Lit "missed"))) (Lit "made"))
  | H_TO =>    (* turnover.* *)
      Some (Cat (Lit "turnover") (Star Dot))
  | H_F =>     (* foul.* *)
      Some (Cat (Lit "foul") (Star Dot))
  | _ => None
  end.

(** [regex and re.search(regex, play_text, re.IGNORECASE)] *)
Definition rule_fires (f : stat) (text : string) : bool :=
  match regex f with
  | Some r => search r text
  | None => false
  end.

(** One iteration of the loop of [_update_stats_from_play]; the state is
    the player and the [matched] flag. *)
Definition update_step (text : string) (st : Player * bool) (f : stat)
  : Player * bool :=
  let '(self, matched) := st in
  if rule_fires f text
  then (setattr self f (getattr self f + 1), true)
  else (self, matched).

(** [Player._update_stats_from_play]: the updated player and what was
    printed. *)
Definition _update_stats_from_play (self : Player) (text : string)
  : Player * list string :=
  let '(self', matched) := fold_left (update_step text) stat_fields (self, false) in
  if negb matched
  then (self', ["Unmatched play text: " ++ text]%string)
  else (self', []).

(** [Player.add_play]: the updated player, the returned play and what was
    printed. The generator's condition compares [play.play_id] with the
    argument and each of the other three arguments with itself, as in the
    source. A [Play] is always true in [if existing_play], so the branch is
    taken exactly when the generator yields one. *)
Definition add_play (self : Player)
    (a_play_id : Z) (a_play_text a_clock : string) (a_period : Z)
  : Player * Play * list string :=
  let existing_play :=
    find (fun play =>
            (play_id play =? a_play_id)
            && String.eqb a_play_text a_play_text
            && String.eqb a_clock a_clock
            && (a_period =? a_period))
         (plays self) in
  match existing_play with
  | Some play => (self, play, [])
  | None =>
      let new_play := mkPlay a_play_id a_play_text a_clock a_period in
      let '(self', out) := _update_stats_from_play self (play_text new_play) in
      (plays_append self' new_play, new_play, out)
  end.

(** A submission, and a run of submissions applied in order. *)
Definition submission : Type := (Z * string * string * Z)%type.

Definition apply_play (self : Player) (s : submission) : Player :=
  let '(i, t, c, n) := s in fst (fst (add_play self i t c n)).

Definition apply_plays (self : Player) (l : list submission) : Player :=
  fold_left apply_play l self.

(** [Player(name=..., number=..., position=..., starter=..., on_court=...)]
    with every default. *)
Definition new_player (nm : string) (num : Z) (pos : string) (st oc : Z)
  : Player :=
  mkPlayer nm num pos st oc "0:00" 0 0 0 0 0 0 0 0 0 0 0 0 0 0 0 0 0 [].

Definition doe : Player := new_player "Doe" 12 "G" 1 1.

(** *** Accessors of the result of [add_play] *)

Definition player_of (r : Player * Play * list string) : Player := fst (fst r).
Definition play_of (r : Player * Play * list string) : Play := snd (fst r).
Definition output_of (r : Player * Play * list string) : list string := snd r.

(** The first play of a sequence carrying a given identifier: what the
    generator expression of [add_play] selects. *)
Definition find_id (i : Z) (l : list Play) : option Play :=
  find (fun play => play_id play =? i) l.

(** How much one application of a text moves a counter. *)
Definition bump (f : stat) (text : string) : Z :=
  if rule_fires f text then 1 else 0.

Definition stat_eq_dec (f g : stat) : {f = g} + {f <> g}.
Proof. decide equality. Defined.


(** *** Attribute access *)

Lemma getattr_setattr_same (self : Player) (f : stat) (v : Z) :
  getattr (setattr self f v) f = v.
Proof. destruct f; reflexivity. Qed.

Lemma getattr_setattr_other (self : Player) (f g : stat) (v : Z) :
  f <> g -> getattr (setattr self f v) g = getattr self g.
Proof. intros H. destruct f, g; try reflexivity; contradiction. Qed.

Lemma plays_setattr (self : Player) (f : stat) (v : Z) :
  plays (setattr self f v) = plays self.
Proof. destruct f; reflexivity. Qed.

Lemma getattr_plays_append (self : Player) (q : Play) (g : stat) :
  getattr (plays_append self q) g = getattr self g.
Proof. destruct g; reflexivity. Qed.

Lemma plays_plays_append (self : Player) (q : Play) :
  plays (plays_append self q) = plays self ++ [q].
Proof. reflexivity. Qed.

(** *** The rule loop *)

Lemma update_fold_plays (text : string) (l : list stat) :
  forall self m,
    plays (fst (fold_left (update_step text) l (self, m))) = plays self.
Proof.
  induction l as [|f l IH]; intros self m; simpl; [reflexivity|].
  destruct (rule_fires f text); rewrite IH; [apply plays_setattr | reflexivity].
Qed.

Lemma update_fold_getattr (text : string) (l : list stat) :
  NoDup l ->
  forall self m g,
    getattr (fst (fold_left (update_step text) l (self, m))) g =
    getattr self g + (if in_dec stat_eq_dec g l then bump g text else 0).
Proof.
  induction 1 as [|f l Hf Hl IH]; intros self m g; cbn [fold_left].
  - simpl. lia.
  - unfold update_step at 2. unfold bump in *.
    destruct (in_dec stat_eq_dec g (f :: l)) as [Hin|Hout];
      destruct (rule_fires f text) eqn:Ef; rewrite IH;
      destruct (in_dec stat_eq_dec g l) as [Hin'|Hout'];
      destruct (stat_eq_dec f g) as [->|Hne];
      try contradiction;
      try (exfalso; apply Hout; simpl; tauto);
      try (exfalso; destruct Hin; congruence);
      rewrite ?getattr_setattr_same, ?Ef;
      try (rewrite getattr_setattr_other by assumption);
      try destruct (rule_fires g text); lia.
Qed.

Lemma stat_fields_NoDup : NoDup stat_fields.
Proof. repeat constructor; simpl; intuition discriminate. Qed.

Lemma stat_fields_all (g : stat) : In g stat_fields.
Proof. destruct g; simpl; tauto. Qed.

Lemma update_stats_getattr (self : Player) (text : string) (g : stat) :
  getattr (fst (_update_stats_from_play self text)) g =
  getattr self g + bump g text.
Proof.
  unfold _update_stats_from_play.
  pose proof (update_fold_getattr text stat_fields stat_fields_NoDup self false g) as H.
  destruct (fold_left _ _ _) as [p m]. cbn [fst] in H.
  destruct (in_dec stat_eq_dec g stat_fields) as [_|Hn];
    [|exfalso; apply Hn, stat_fields_all].
  destruct (negb m); exact H.
Qed.

Lemma update_stats_plays (self : Player) (text : string) :
  plays (fst (_update_stats_from_play self text)) = plays self.
Proof.
  unfold _update_stats_from_play.
  pose proof (update_fold_plays text stat_fields self false) as H.
  destruct (fold_left _ _ _) as [p m]. simpl in H.
  destruct (negb m); exact H.
Qed.

(** *** [add_play] by cases on the lookup *)

Lemma existing_play_find_id (l : list Play) (i : Z) (t c : string) (n : Z) :
  find (fun play =>
          (play_id play =? i) && String.eqb t t && String.eqb c c && (n =? n)) l
  = find_id i l.
Proof.
  unfold find_id. rewrite !String.eqb_refl, Z.eqb_refl.
  induction l as [|q l IH]; simpl; [reflexivity|].
  rewrite IH, !andb_true_r. reflexivity.
Qed.

Lemma add_play_seen (self : Player) (i : Z) (t c : string) (n : Z) (q : Play) :
  find_id i (plays self) = Some q ->
  add_play self i t c n = (self, q, []).
Proof.
  intros H. unfold add_play. now rewrite existing_play_find_id, H.
Qed.

Lemma add_play_unseen (self : Player) (i : Z) (t c : string) (n : Z) :
  find_id i (plays self) = None ->
  add_play self i t c n =
  (plays_append (fst (_update_stats_from_play self t)) (mkPlay i t c n),
   mkPlay i t c n,
   snd (_update_stats_from_play self t)).
Proof.
  intros H. unfold add_play. rewrite existing_play_find_id, H. simpl.
  now destruct (_update_stats_from_play self t).
Qed.





End Models.

(** ** Protocol messages of [src/src/models.py] *)

Module Messages.
Import Text.

(** The three dataclasses that derive from [BaseMessage]. The program
    never instantiates [BaseMessage] itself. *)
Inductive variant : Type :=
| HandshakeMessage
| ConnectMessage
| SubscribeMessage.

Definition variant_eqb (a b : variant) : bool :=
  match a, b with
  | HandshakeMessage, HandshakeMessage
  | ConnectMessage, ConnectMessage
  | SubscribeMessage, SubscribeMessage => true
  | _, _ => false
  end.

(** The class attributes named [_id_counter]. The body of [BaseMessage]
    binds one; a subclass has one in its own namespace only after an
    assignment through that subclass. *)
Record class_attrs : Type := mkAttrs {
  BaseMessage_id_counter : Z;
  own_id_counter : variant -> option Z
}.

(** The namespaces when the module has been imported. *)
Definition initial_attrs : class_attrs := mkAttrs 0 (fun _ => None).

(** [cls._id_counter] as an expression: the class's own attribute if it
    has one, otherwise the one inherited from [BaseMessage]. *)
Definition read_id_counter (ns : class_attrs) (cls : variant) : Z :=
  match own_id_counter ns cls with
  | Some v => v
  | None => BaseMessage_id_counter ns
  end.

(** [cls._id_counter = v]: an assignment binds in the namespace of [cls]. *)
Definition write_id_counter (ns : class_attrs) (cls : variant) (v : Z)
  : class_attrs :=
  mkAttrs (BaseMessage_id_counter ns)
          (fun c => if variant_eqb c cls then Some v else own_id_counter ns c).

(** The fields every message has. *)
Record envelope : Type := mkEnvelope {
  ext : list (string * string);
  channel : string;
  id : string
}.

Inductive message : Type :=
| Handshake (e : envelope) (version : string)
            (supportedConnectionTypes : list string)
| Connect (e : envelope) (clientId connectionType : string)
| Subscribe (e : envelope) (clientId subscription : string).

Definition envelope_of (m : message) : envelope :=
  match m with
  | Handshake e _ _ | Connect e _ _ | Subscribe e _ _ => e
  end.


(** [BaseMessage.__post_init__], where [self.__class__] is [cls]:
    [self.id = str(cls._id_counter)] and then [cls._id_counter += 1], that
    is, [cls._id_counter = cls._id_counter + 1]. *)
Definition base_post_init (ns : class_attrs) (cls : variant)
  : class_attrs * string :=
  let self_id := str (read_id_counter ns cls) in
  (write_id_counter ns cls (read_id_counter ns cls + 1), self_id).

(** [HandshakeMessage(ext=ext)] *)
Definition new_handshake (ns : class_attrs) (ext : list (string * string))
  : class_attrs * message :=
  let '(ns', i) := base_post_init ns HandshakeMessage in
  (ns', Handshake (mkEnvelope ext "/meta/handshake" i) "1.0"
          ["websocket"; "eventsource"; "long-polling";
           "cross-origin-long-polling"; "callback-polling"]).

(** [ConnectMessage(clientId=clientId, ext=ext)] *)
Definition new_connect (ns : class_attrs) (ext : list (string * string))
    (clientId : string) : class_attrs * message :=
  let '(ns', i) := base_post_init ns ConnectMessage in
  (ns', Connect (mkEnvelope ext "/meta/connect" i) clientId "websocket").

(** [SubscribeMessage(clientId=clientId, subscription=subscription, ext=ext)] *)
Definition new_subscribe (ns : class_attrs) (ext : list (string * string))
    (clientId subscription : string) : class_attrs * message :=
  let '(ns', i) := base_post_init ns SubscribeMessage in
  (ns', Subscribe (mkEnvelope ext "/meta/subscribe" i) clientId subscription).

(** Constructing a message of a given class, with fixed arguments. *)
Definition construct (ns : class_attrs) (cls : variant)
  : class_attrs * message :=
  match cls with
  | HandshakeMessage => new_handshake ns []
  | ConnectMessage => new_connect ns [] "client"
  | SubscribeMessage => new_subscribe ns [] "client" "/MBB/box_score/1"
  end.

(** The identifiers observed over a sequence of constructions. *)
Fixpoint ids_observed (ns : class_attrs) (l : list variant) : list string :=
  match l with
  | [] => []
  | cls :: l' =>
      let '(ns', m) := construct ns cls in
      id (envelope_of m) :: ids_observed ns' l'
  end.

(** The number of earlier constructions of the same class decides the
    identifier. *)
Definition count_class (cls : variant) (l : list variant) : Z :=
  Z.of_nat (length (filter (variant_eqb cls) l)).

Lemma construct_id (ns : class_attrs) (cls : variant) :
  id (envelope_of (snd (construct ns cls))) = str (read_id_counter ns cls)
  /\ fst (construct ns cls) =
     write_id_counter ns cls (read_id_counter ns cls + 1).
Proof. destruct cls; split; reflexivity. Qed.

Lemma read_write_id_counter (ns : class_attrs) (c d : variant) (v : Z) :
  read_id_counter (write_id_counter ns c v) d =
  if variant_eqb d c then v else read_id_counter ns d.
Proof.
  unfold read_id_counter, write_id_counter. simpl.
  now destruct (variant_eqb d c).
Qed.

(** The namespaces after a run of constructions. *)
Definition attrs_after (ns : class_attrs) (l : list variant) : class_attrs :=
  fold_left (fun ns' cls => fst (construct ns' cls)) l ns.

(** The identifiers of the messages of one class in a run of
    constructions from the namespaces of the import, in order. *)
Definition ids_of_class (cls : variant) (l : list variant) : list string :=
  map snd (filter (fun p => variant_eqb cls (fst p))
                  (combine l (ids_observed initial_attrs l))).

(** The identifiers a run of constructions shows, told from the classes
    alone: each is the number of earlier constructions of its own class. *)
Fixpoint ids_by_class (seen l : list variant) : list string :=
  match l with
  | [] => []
  | cls :: l' => str (count_class cls seen) :: ids_by_class (seen ++ [cls]) l'
  end.

Lemma count_class_snoc (c d : variant) (seen : list variant) :
  count_class c (seen ++ [d]) =
  count_class c seen + (if variant_eqb c d then 1 else 0).
Proof.
  unfold count_class. rewrite filter_app, length_app. simpl.
  destruct (variant_eqb c d); simpl; lia.
Qed.

Lemma ids_observed_by_class (l seen : list variant) (ns : class_attrs) :
  (forall c, read_id_counter ns c = count_class c seen) ->
  ids_observed ns l = ids_by_class seen l.
Proof.
  revert seen ns; induction l as [|cls l IH]; intros seen ns Hns; simpl.
  - reflexivity.
  - destruct (construct_id ns cls) as [Hid Hst].
    destruct (construct ns cls) as [ns' m]. simpl in Hid, Hst.
    rewrite Hid, Hns. f_equal. apply IH. intros c.
    rewrite Hst, read_write_id_counter, count_class_snoc, !Hns.
    destruct (variant_eqb c cls) eqn:E; [|lia].
    destruct c, cls; try discriminate; reflexivity.
Qed.

End Messages.

(** ** The stream client of [src/src/stream.py] and [src/src/http.py] *)

Module Stream.
Import Text Models.

(** The exceptions the modelled code can raise. *)
Inductive exn : Type :=
| AttributeError
| KeyError
| JSONDecodeError
| ConnectionClosed
| OtherError (what : string).

(** *** Scoreboards and player resolution *)

Record Scoreboard : Type := mkScoreboard {
  team_name : option string;
  team_logo_url : option string;
  players : list Player;
  team_shortname : option string      (* [None] until assigned *)
}.

Inductive side : Type := Away | Home.

(** A [Player] object handed out by a scoreboard is designated by the
    scoreboard and its position in [players]: callers mutate it in place,
    so its identity matters and not only its value. *)
Definition player_ref : Type := (side * nat)%type.

Fixpoint index_of_name (nm : string) (l : list Player) : option nat :=
  match l with
  | [] => None
  | p :: l' =>
      if String.eqb (name p) nm then Some 0%nat
      else option_map S (index_of_name nm l')
  end.

(** [Scoreboard.get_player_by_name]: the first player of that name. *)
Definition get_player_by_name (sb : Scoreboard) (nm : string) : option nat :=
  index_of_name nm (players sb).

(** [sb.team_shortname = v] *)
Definition set_team_shortname (sb : Scoreboard) (v : string) : Scoreboard :=
  mkScoreboard (team_name sb) (team_logo_url sb) (players sb) (Some v).

(** [sb.team_shortname == v], for a [str] value [v]. *)
Definition shortname_is (sb : Scoreboard) (v : string) : bool :=
  match team_shortname sb with
  | Some s => String.eqb s v
  | None => false
  end.

Record LiveStreamStats : Type := mkLiveStreamStats {
  _sports_code : string;
  _game_id : Z;
  away_scoreboard : Scoreboard;
  home_scoreboard : Scoreboard;
  _websocket_message_ext : list (string * string);
  _session_cookie : string
}.

Definition set_away (self : LiveStreamStats) (sb : Scoreboard) : LiveStreamStats :=
  mkLiveStreamStats (_sports_code self) (_game_id self) sb (home_scoreboard self)
                    (_websocket_message_ext self) (_session_cookie self).

Definition set_home (self : LiveStreamStats) (sb : Scoreboard) : LiveStreamStats :=
  mkLiveStreamStats (_sports_code self) (_game_id self) (away_scoreboard self) sb
                    (_websocket_message_ext self) (_session_cookie self).

Definition board (sd : side) (self : LiveStreamStats) : Scoreboard :=
  match sd with
  | Away => away_scoreboard self
  | Home => home_scoreboard self
  end.

Definition refer (sd : side) (found : option nat) : option player_ref :=
  option_map (fun k => (sd, k)) found.

(** [LiveStreamStats._get_player]: the client after the call and the
    player returned, if any. A [Player] is always true in [if player]. *)
Definition _get_player (self : LiveStreamStats)
    (player_name a_team_shortname : string)
  : LiveStreamStats * option player_ref :=
  if shortname_is (away_scoreboard self) a_team_shortname then
    (self, refer Away (get_player_by_name (away_scoreboard self) player_name))
  else if shortname_is (home_scoreboard self) a_team_shortname then
    (self, refer Home (get_player_by_name (home_scoreboard self) player_name))
  else
    (* Default fallback *)
    match get_player_by_name (away_scoreboard self) player_name with
    | Some k =>
        (set_away self (set_team_shortname (away_scoreboard self) a_team_shortname),
         Some (Away, k))
    | None =>
        match get_player_by_name (home_scoreboard self) player_name with
        | Some k =>
            (set_home self (set_team_shortname (home_scoreboard self) a_team_shortname),
             Some (Home, k))
        | None => (self, None)
        end
    end.


(** *** Inbound frames and the router *)

(** Decoded JSON. An object is a Python [dict]: the association list
    holds its items in iteration order, each key once. Numbers are the
    integers the feed sends. *)
Inductive json : Type :=
| JNull
| JBool (b : bool)
| JNum (n : Z)
| JStr (s : string)
| JArr (l : list json)
| JObj (items : list (string * json)).

Definition dict : Type := list (string * json).

(** [key in d] *)
Definition dict_in (key : string) (d : dict) : bool :=
  existsb (fun kv => String.eqb (fst kv) key) d.

(** [d[key]], when the key is present. *)
Definition dict_get (key : string) (d : dict) : option json :=
  option_map snd (find (fun kv => String.eqb (fst kv) key) d).

(** [v == s] for a [str] value [s]. *)
Definition eq_str (v : json) (s : string) : bool :=
  match v with
  | JStr t => String.eqb t s
  | _ => false
  end.

(** f"/{self._sports_code}/box_score/{self._game_id}" *)
Definition subscription_of (self : LiveStreamStats) : string :=
  ("/" ++ _sports_code self ++ "/box_score/" ++ str (_game_id self))%string.

(** [LiveStreamStats._is_relevant_message], for an [item] that is an
    object. The [and] chain is evaluated left to right, so [item["channel"]]
    is read only when the key is present. *)
Definition _is_relevant_message (self : LiveStreamStats) (item : dict) : bool :=
  dict_in "channel" item
  && match dict_get "channel" item with
     | Some v => eq_str v (subscription_of self)
     | None => false
     end
  && dict_in "data" item
  && negb (dict_in "chart" item)
  && negb (dict_in "shot_chart" item).

(** [LiveStreamStats._extract_play_data]: [item["data"].items()] needs the
    key and a [dict] behind it. *)
Definition _extract_play_data (item : dict) : exn + dict :=
  match dict_get "data" item with
  | None => inl KeyError
  | Some (JObj data) =>
      inr (filter (fun kv => startswith "play_" (fst kv)) data)
  | Some _ => inl AttributeError
  end.

(** The play submissions the loop of [_process_messages] hands on for one
    object of a frame: one call of [_process_play_data] per entry. *)
Definition play_submissions (self : LiveStreamStats) (item : dict) : dict :=
  if _is_relevant_message self item then
    match _extract_play_data item with
    | inr play_data => play_data
    | inl _ => []
    end
  else [].

(** The object's channel equals the subscribed channel. *)
Definition channel_is (self : LiveStreamStats) (item : dict) : bool :=
  match dict_get "channel" item with
  | Some v => eq_str v (subscription_of self)
  | None => false
  end.

(** An object carries a non-empty payload map. *)
Definition has_payload (item : dict) : bool :=
  match dict_get "data" item with
  | Some (JObj (_ :: _)) => true
  | _ => false
  end.

(** The payload is a map that has the given key. *)
Definition payload_has_key (key : string) (item : dict) : bool :=
  match dict_get "data" item with
  | Some (JObj data) => dict_in key data
  | _ => false
  end.

(** *** State and exceptions threaded through the processing task *)

Definition M (A : Type) : Type :=
  LiveStreamStats -> LiveStreamStats * (exn + A).

Definition ret {A : Type} (a : A) : M A := fun self => (self, inr a).

Definition raise {A : Type} (e : exn) : M A := fun self => (self, inl e).

Definition bind {A B : Type} (c : M A) (k : A -> M B) : M B :=
  fun self =>
    match c self with
    | (self', inr a) => k a self'
    | (self', inl e) => (self', inl e)
    end.

Definition get_self : M LiveStreamStats := fun self => (self, inr self).

Definition lift {A : Type} (r : exn + A) : M A := fun self => (self, r).

Notation "x <- c ;; k" := (bind c (fun x => k))
  (at level 61, c at next level, right associativity).

(** A [for] loop whose body may raise. *)
Fixpoint for_each {A : Type} (body : A -> M unit) (l : list A) : M unit :=
  match l with
  | [] => ret tt
  | a :: l' => _ <- body a ;; for_each body l'
  end.

Section Processing.

(** The raw frames of the connection and [json.loads] on them, [None]
    standing for a raised [JSONDecodeError]. A decoded frame is an array
    of objects, as the feed sends them. *)
Variable Raw : Type.
Variable json_loads : Raw -> option (list dict).

(** [LiveStreamStats._process_play_data], the aggregator's entry. *)
Variable _process_play_data : string -> json -> M unit.

(** The body of [for item in message]. *)
Definition process_item (item : dict) : M unit :=
  self <- get_self ;;
  if negb (_is_relevant_message self item) then ret tt
  else
    play_data <- lift (_extract_play_data item) ;;
    for_each (fun kv => _process_play_data (fst kv) (snd kv)) play_data.

(** The body of [async for raw_message in websocket]. *)
Definition process_raw (raw_message : Raw) : M unit :=
  message <- lift (match json_loads raw_message with
                   | Some m => inr m
                   | None => inl JSONDecodeError
                   end) ;;
  for_each process_item message.

(** [LiveStreamStats._process_messages] over the frames the connection
    delivers, in order. The result [inr tt] means every frame given was
    consumed and the task is waiting for the next one. *)
Definition _process_messages (inbound : list Raw) : M unit :=
  for_each process_raw inbound.

End Processing.

(** What [stream] does when [asyncio.gather] re-raises an exception of one
    of its tasks: only [websockets.ConnectionClosed] is caught. *)
Inductive stream_step : Type :=
| Reconnect
| Propagate (e : exn).

Definition on_task_exception (e : exn) : stream_step :=
  match e with
  | ConnectionClosed => Reconnect
  | _ => Propagate e
  end.

End Stream.

(** ** Bootstrap: [fetch_url] and [LiveStreamStats.__init__] *)

Module Bootstrap.
Import Text Stream.

Record Response : Type := mkResponse {
  headers : list (string * string);
  text : string
}.

(** [response.headers[key]] when the header is present; the keys of the
    headers of a response compare ignoring case. *)
Definition header (r : Response) (key : string) : option string :=
  option_map snd
    (find (fun kv => String.eqb (lower_string (fst kv)) (lower_string key))
          (headers r)).

(** What [session.get] met, after the retries of its adapter: a reply
    with a status code, or an exception of [requests]. *)
Inductive transport : Type :=
| Replied (status_code : Z) (r : Response)
| RequestException.

(** [response.raise_for_status()] raises for the codes 400..599. *)
Definition raise_for_status (status_code : Z) : bool :=
  (400 <=? status_code) && (status_code <? 600).

(** [fetch_url]: the [except] branch prints and returns [None]. *)
Definition fetch_url (t : transport) : option Response :=
  match t with
  | Replied status_code r =>
      if raise_for_status status_code then None else Some r
  | RequestException => None
  end.

(** *** The pattern
    [(?:livestream_user_id=([^;]+);)?(?:.*?_stats_session=([^;]+);)?]

    Both groups are optional, so [re.search] succeeds at position 0 of
    any text; what varies is which groups took part. *)

Fixpoint strip_prefix (p s : string) : option string :=
  match p, s with
  | EmptyString, _ => Some s
  | String a p', String b s' =>
      if Ascii.eqb a b then strip_prefix p' s' else None
  | String _ _, EmptyString => None
  end.

(** The characters before the first [;] and the text after it. *)
Fixpoint until_semicolon (s : string) : option (string * string) :=
  match s with
  | EmptyString => None
  | String c s' =>
      if Ascii.eqb c ";"%char then Some (EmptyString, s')
      else match until_semicolon s' with
           | Some (v, r) => Some (String c v, r)
           | None => None
           end
  end.

(** [([^;]+);] at the head of [s]: the group and the text after the [;]. *)
Definition value_semicolon (s : string) : option (string * string) :=
  match until_semicolon s with
  | Some (String c v, r) => Some (String c v, r)
  | _ => None
  end.

(** [(?:livestream_user_id=([^;]+);)?] at position 0: group 1, and the
    text at which the rest of the pattern goes on. *)
Definition user_id_group (h : string) : option string * string :=
  match strip_prefix "livestream_user_id=" h with
  | Some t =>
      match value_semicolon t with
      | Some (v, r) => (Some v, r)
      | None => (None, h)
      end
  | None => (None, h)
  end.

(** [(?:.*?_stats_session=([^;]+);)?] at the head of [t]: group 2. The
    lazy [.*?] skips as few characters as possible, none of them a
    newline. *)
Fixpoint session_group (t : string) : option string :=
  match
    match strip_prefix "_stats_session=" t with
    | Some u => value_semicolon u
    | None => None
    end
  with
  | Some (v, _) => Some v
  | None =>
      match t with
      | EmptyString => None
      | String c t' =>
          if Ascii.eqb c newline then None else session_group t'
      end
  end.

(** [match.group(k) if match and match.group(k) else ""] *)
Definition group_or_empty (g : option string) : string :=
  match g with
  | Some v => v
  | None => ""
  end.

Section Init.

(** [_get_scoreboards], the scrape of the box-score page. *)
Variable _get_scoreboards : string -> exn + (Scoreboard * Scoreboard).

(** [LiveStreamStats.__init__], given what [fetch_url] returned. *)
Definition __init__ (sports_code : string) (game_id : Z)
    (response : option Response) : exn + LiveStreamStats :=
  match response with
  | None => inl AttributeError          (* [response.headers] on [None] *)
  | Some r =>
      match header r "Set-Cookie" with
      | None => inl KeyError            (* [response.headers["Set-Cookie"]] *)
      | Some h =>
          let '(g1, rest) := user_id_group h in
          let g2 := session_group rest in
          match _get_scoreboards (text r) with
          | inl e => inl e
          | inr (away, home) =>
              let livestream_user_id := group_or_empty g1 in
              let stats_session := group_or_empty g2 in
              inr (mkLiveStreamStats sports_code game_id away home
                     [("livestream_token", "");
                      ("livestream_user_id", livestream_user_id)]
                     ("livestream_user_id=" ++ livestream_user_id
                      ++ "; _stats_session=" ++ stats_session)%string)
          end
      end
  end.

(** [LiveStreamStats(sports_code, game_id)] from what the transport met. *)
Definition bootstrap (sports_code : string) (game_id : Z) (t : transport)
  : exn + LiveStreamStats :=
  __init__ sports_code game_id (fetch_url t).

End Init.

(** *** Where the groups come from *)

Lemma strip_prefix_split (p s t : string) :
  strip_prefix p s = Some t -> s = (p ++ t)%string.
Proof.
  revert s; induction p as [|a p IH]; intros s H; simpl in *.
  - now injection H as ->.
  - destruct s as [|b s]; [discriminate|].
    destruct (Ascii.eqb a b) eqn:E; [|discriminate].
    apply Ascii.eqb_eq in E as ->. now rewrite (IH _ H).
Qed.

Lemma until_semicolon_split (s v r : string) :
  until_semicolon s = Some (v, r) -> s = (v ++ String ";" r)%string.
Proof.
  revert v r; induction s as [|c s IH]; intros v r H; simpl in H; [discriminate|].
  destruct (Ascii.eqb c ";") eqn:E.
  - apply Ascii.eqb_eq in E as ->. now injection H as <- <-.
  - destruct (until_semicolon s) as [[v' r']|]; [|discriminate].
    injection H as <- <-. simpl. now rewrite (IH _ _ eq_refl).
Qed.

Lemma value_semicolon_split (s v r : string) :
  value_semicolon s = Some (v, r) -> s = (v ++ String ";" r)%string.
Proof.
  unfold value_semicolon. intros H.
  destruct (until_semicolon s) as [[[|c v'] r']|] eqn:E; try discriminate.
  injection H as <- <-. now apply until_semicolon_split.
Qed.

Lemma user_id_group_some (h v rest : string) :
  user_id_group h = (Some v, rest) ->
  h = ("livestream_user_id=" ++ v ++ String ";" rest)%string.
Proof.
  unfold user_id_group. intros H.
  destruct (strip_prefix "livestream_user_id=" h) as [t|] eqn:E; [|discriminate].
  destruct (value_semicolon t) as [[v' r']|] eqn:E'; [|discriminate].
  injection H as <- <-.
  apply strip_prefix_split in E. apply value_semicolon_split in E'.
  now rewrite E, E'.
Qed.

Lemma user_id_group_none (h rest : string) :
  user_id_group h = (None, rest) -> rest = h.
Proof.
  unfold user_id_group. intros H.
  destruct (strip_prefix "livestream_user_id=" h) as [t|]; [|now injection H].
  destruct (value_semicolon t) as [[v' r']|]; [discriminate | now injection H].
Qed.

Lemma session_group_some (t v : string) :
  session_group t = Some v -> contains "_stats_session=" t = true.
Proof.
  induction t as [|c t IH]; intros H.
  - simpl in H. discriminate.
  - cbn [session_group] in H.
    destruct (strip_prefix "_stats_session=" (String c t)) as [u|] eqn:E.
    + apply strip_prefix_split in E. apply contains_split.
      exists EmptyString, u. exact E.
    + destruct (Ascii.eqb c newline); [discriminate|].
      apply IH in H. cbn [contains]. rewrite H. apply orb_true_r.
Qed.

Lemma contains_suffix (p a b : string) :
  contains p b = true -> contains p (a ++ b) = true.
Proof.
  intros H. apply contains_split in H as [pre [post ->]].
  apply contains_split. exists (a ++ pre)%string, post.
  now rewrite Regex.app_assoc.
Qed.

End Bootstrap.

(** ** Play texts: [str.strip], [str.split], [int] and [_parse_plays] *)

Module PlayText.
Import Text.

(** [c.isspace()]: the characters [\s] matches and [strip] removes. *)
Definition is_space (c : ascii) : bool :=
  let n := nat_of_ascii c in
  (Nat.leb 9 n && Nat.leb n 13) || (Nat.leb 28 n && Nat.leb n 32)
  || Nat.eqb n 133 || Nat.eqb n 160.

(** The class [[A-Za-z]]. *)
Definition is_alpha (c : ascii) : bool :=
  let n := nat_of_ascii c in
  (Nat.leb 65 n && Nat.leb n 90) || (Nat.leb 97 n && Nat.leb n 122).

(** The class [[A-Za-z\s]]. *)
Definition is_name_char (c : ascii) : bool := is_alpha c || is_space c.

Definition is_empty (s : string) : bool :=
  match s with
  | EmptyString => true
  | String _ _ => false
  end.

(** [s + c] for one character [c]. *)
Definition snoc (s : string) (c : ascii) : string :=
  (s ++ String c EmptyString)%string.

(** [s.lstrip()], [s.rstrip()] and [s.strip()]. *)
Fixpoint lstrip (s : string) : string :=
  match s with
  | EmptyString => EmptyString
  | String c s' => if is_space c then lstrip s' else s
  end.

Fixpoint rstrip (s : string) : string :=
  match s with
  | EmptyString => EmptyString
  | String c s' =>
      let r := rstrip s' in
      if is_space c && is_empty r then EmptyString else String c r
  end.

Definition strip (s : string) : string := rstrip (lstrip s).

(** [s.split(sep)] for a separator of one character: never an empty
    list. *)
Fixpoint split_on (sep : ascii) (s : string) : list string :=
  match s with
  | EmptyString => [EmptyString]
  | String c s' =>
      if Ascii.eqb c sep then EmptyString :: split_on sep s'
      else match split_on sep s' with
           | piece :: pieces => String c piece :: pieces
           | [] => [String c EmptyString]
           end
  end.

(** [sep.join(pieces)] *)
Fixpoint join (sep : ascii) (pieces : list string) : string :=
  match pieces with
  | [] => EmptyString
  | [piece] => piece
  | piece :: rest => (piece ++ String sep (join sep rest))%string
  end.

(** *** [int(s)] in base ten

    White space around the number is dropped (the characters 9 to 13, the
    blank, 133 and 160), a sign may come first, and the digits may be
    parted by single underscores. The interpreter's bound on the number of
    digits is not part of the embedding, as for [str]. *)

Definition is_int_space (c : ascii) : bool :=
  let n := nat_of_ascii c in
  (Nat.leb 9 n && Nat.leb n 13) || Nat.eqb n 32 || Nat.eqb n 133 || Nat.eqb n 160.

Definition digit_value (c : ascii) : option Z :=
  let n := nat_of_ascii c in
  if Nat.leb 48 n && Nat.leb n 57 then Some (Z.of_nat (n - 48)) else None.

Fixpoint int_lstrip (s : string) : string :=
  match s with
  | EmptyString => EmptyString
  | String c s' => if is_int_space c then int_lstrip s' else s
  end.

Fixpoint int_rstrip (s : string) : string :=
  match s with
  | EmptyString => EmptyString
  | String c s' =>
      let r := int_rstrip s' in
      if is_int_space c && is_empty r then EmptyString else String c r
  end.

(** The digits of a number, read from the left: [acc] is the value so
    far and [after_digit] tells whether the last character was a digit, as
    an underscore and the end of the text need. *)
Fixpoint digits_value (s : string) (acc : Z) (after_digit : bool) : option Z :=
  match s with
  | EmptyString => if after_digit then Some acc else None
  | String c s' =>
      match digit_value c with
      | Some d => digits_value s' (10 * acc + d) true
      | None =>
          if Ascii.eqb c "_"%char && after_digit
          then digits_value s' acc false
          else None
      end
  end.

(** [int(s)]; [None] stands for the [ValueError]. *)
Definition py_int (s : string) : option Z :=
  match int_rstrip (int_lstrip s) with
  | String "+" body => digits_value body 0 false
  | String "-" body => option_map Z.opp (digits_value body 0 false)
  | body => digits_value body 0 false
  end.

(** [s.isdigit()]: the ten digits and the superscripts one, two and three
    (185, 178, 179), in a text that is not empty. *)
Definition is_digit_char (c : ascii) : bool :=
  let n := nat_of_ascii c in
  (Nat.leb 48 n && Nat.leb n 57) || Nat.eqb n 178 || Nat.eqb n 179 || Nat.eqb n 185.

Fixpoint all_chars (p : ascii -> bool) (s : string) : bool :=
  match s with
  | EmptyString => true
  | String c s' => p c && all_chars p s'
  end.

Definition isdigit (s : string) : bool := negb (is_empty s) && all_chars is_digit_char s.

(** *** [_parse_plays]

    The pattern is
    [(?P<player_name>[A-Za-z\s]+)\((?P<team_shortname>[A-Za-z]+)\)].
    Neither class holds a parenthesis, so a match that starts inside a run
    of name characters takes the run to its end, must meet [(] there, then
    takes every letter that follows and must meet [)]. [re.finditer] gives
    the matches from the left, each search starting where the last match
    ended; a run that fails is passed over, but the letters read after a
    [(] belong to the text that is searched next. *)

Inductive scan_state : Type :=
| InName (run : string)           (* the run of name characters so far *)
| InCode (run code : string).     (* past [run(], the letters so far *)

Fixpoint scan (st : scan_state) (s : string) : list (string * string) :=
  match s with
  | EmptyString => []
  | String c s' =>
      match st with
      | InName run =>
          if is_name_char c then scan (InName (snoc run c)) s'
          else if Ascii.eqb c "("%char && negb (is_empty run)
               then scan (InCode run EmptyString) s'
               else scan (InName EmptyString) s'
      | InCode run code =>
          if is_alpha c then scan (InCode run (snoc code c)) s'
          else if Ascii.eqb c ")"%char && negb (is_empty code)
               then (run, code) :: scan (InName EmptyString) s'
               else if is_name_char c then scan (InName (snoc code c)) s'
               else if Ascii.eqb c "("%char && negb (is_empty code)
                    then scan (InCode code EmptyString) s'
                    else scan (InName EmptyString) s'
      end
  end.

(** [LiveStreamStats._parse_plays]: the groups [player_name] and
    [team_shortname] of every match, in order. *)
Definition _parse_plays (play_text : string) : list (string * string) :=
  scan (InName EmptyString) play_text.

End PlayText.

(** ** The aggregator's entry: [LiveStreamStats._process_play_data] *)

Module Aggregator.
Import Text Models Stream PlayText.

Definition set_players (sb : Scoreboard) (l : list Player) : Scoreboard :=
  mkScoreboard (team_name sb) (team_logo_url sb) l (team_shortname sb).

(** The list with the element at position [k] replaced, if there is one. *)
Fixpoint replace_nth {A : Type} (k : nat) (x : A) (l : list A) : list A :=
  match l, k with
  | [], _ => []
  | _ :: l', O => x :: l'
  | y :: l', S k' => y :: replace_nth k' x l'
  end.

(** The player a reference designates. *)
Definition deref (self : LiveStreamStats) (r : player_ref) : option Player :=
  nth_error (players (board (fst r) self)) (snd r).

(** The client once the player a reference designates has been mutated
    into [p]. *)
Definition store (self : LiveStreamStats) (r : player_ref) (p : Player)
  : LiveStreamStats :=
  match fst r with
  | Away =>
      set_away self
        (set_players (away_scoreboard self)
           (replace_nth (snd r) p (players (away_scoreboard self))))
  | Home =>
      set_home self
        (set_players (home_scoreboard self)
           (replace_nth (snd r) p (players (home_scoreboard self))))
  end.

(** [d.get(key, default)] *)
Definition dict_get_default (key : string) (d : dict) (default : json) : json :=
  match dict_get key d with
  | Some v => v
  | None => default
  end.

(** [int(play_key.split("_")[1])] *)
Definition play_id_of_key (play_key : string) : exn + Z :=
  match split_on "_" play_key with
  | _ :: piece :: _ =>
      match py_int piece with
      | Some n => inr n
      | None => inl (OtherError "ValueError")
      end
  | _ => inl (OtherError "IndexError")
  end.

(** The body of [for match in self._parse_plays(play_text)]: the client
    and what has been printed so far, before and after one match. *)
Definition apply_reference (a_play_id : Z) (a_play_text a_clock : string)
    (a_period : Z) (acc : LiveStreamStats * list string) (m : string * string)
  : LiveStreamStats * list string :=
  let '(self, out) := acc in
  let '(self1, found) := _get_player self (strip (fst m)) (snd m) in
  match found with
  | Some r =>
      match deref self1 r with
      | Some player =>
          let result := add_play player a_play_id a_play_text a_clock a_period in
          (store self1 r (player_of result), out ++ output_of result)
      | None => (self1, out)
      end
  | None => (self1, out)
  end.

(** The body of [for play_text in plays_text]. *)
Definition apply_fragment (a_play_id : Z) (a_clock : string) (a_period : Z)
    (acc : LiveStreamStats * list string) (a_play_text : string)
  : LiveStreamStats * list string :=
  fold_left (apply_reference a_play_id a_play_text a_clock a_period)
            (_parse_plays a_play_text) acc.

(** [LiveStreamStats._process_play_data]: an exception raised before any
    player is looked at, or the client after the call and what was
    printed. [Play] holds a [str] clock and an [int] period; play data
    whose clock or period is of another type is outside the embedding and
    gives [None]. *)
Definition _process_play_data (play_key : string) (play_info : json)
    (self : LiveStreamStats)
  : option (exn + LiveStreamStats * list string) :=
  match play_id_of_key play_key with
  | inl e => Some (inl e)
  | inr a_play_id =>
      match play_info with
      | JObj d =>
          match dict_get_default ("play_text_" ++ str a_play_id) d (JStr "") with
          | JStr text =>
              let plays_text := split_on "," text in
              match dict_get_default ("clock_" ++ str a_play_id) d (JStr ""),
                    dict_get_default ("period_" ++ str a_play_id) d (JNum 0)
              with
              | JStr a_clock, JNum a_period =>
                  Some (inr (fold_left (apply_fragment a_play_id a_clock a_period)
                                       plays_text (self, [])))
              | _, _ => None
              end
          | _ => Some (inl AttributeError)      (* [.split] on what is no [str] *)
          end
      | _ => Some (inl AttributeError)          (* [.get] on what is no [dict] *)
      end
  end.

(** A player has only grown: the same identity, no counter lower, the
    plays of before still at the head of the sequence. *)
Definition grown (p p' : Player) : Prop :=
  name p' = name p /\ number p' = number p /\ position p' = position p
  /\ starter p' = starter p /\ on_court p' = on_court p
  /\ minutes_played p' = minutes_played p
  /\ (forall g, getattr p g <= getattr p' g)
  /\ exists added, plays p' = plays p ++ added.

End Aggregator.

(** ** [src/src/helpers.py] *)

Module Helpers.
Import Text Stream PlayText.

(** [d[key] = v] on a [dict]: a present key keeps its place. *)
Fixpoint dict_set (key : string) (v : json) (d : dict) : dict :=
  match d with
  | [] => [(key, v)]
  | (k, w) :: d' =>
      if String.eqb k key then (k, v) :: d' else (k, w) :: dict_set key v d'
  end.

(** The value [normalize_player_stats] stores for one value; [int] raises
    on a text that [isdigit] accepts for a superscript digit. *)
Definition normalize_value (value : json) : exn + json :=
  match value with
  | JStr s =>
      if isdigit s then
        match py_int s with
        | Some n => inr (JNum n)
        | None => inl (OtherError "ValueError")
        end
      else if String.eqb s "" then inr (JNum 0)
      else if String.eqb s "*" then inr (JNum 1)
      else inr (JStr s)
  | _ => inr value
  end.

(** The loop of [normalize_player_stats] from [normalized] on. *)
Fixpoint normalize_from (items : dict) (normalized : dict) : exn + dict :=
  match items with
  | [] => inr normalized
  | (key, value) :: items' =>
      match normalize_value value with
      | inl e => inl e
      | inr v => normalize_from items' (dict_set key v normalized)
      end
  end.

(** [normalize_player_stats] *)
Definition normalize_player_stats (player_data : dict) : exn + dict :=
  normalize_from player_data [].

(** The header and the name of every field of [Player] whose metadata has
    a header, in the order of the fields: [header_to_field]. *)
Definition header_to_field : list (string * string) :=
  [("Name", "name"); ("#", "number"); ("Pos", "position");
   ("Starter", "starter"); ("On Court", "on_court"); ("MP", "minutes_played");
   ("FGM", "field_goals_made"); ("FGA", "field_goals_attempted");
   ("3FGM", "three_point_field_goals_made");
   ("3FGA", "three_point_field_goals_attempted");
   ("FTM", "free_throws_made"); ("FTA", "free_throws_attempted");
   ("PTS", "points"); ("ORebs", "offensive_rebounds");
   ("DRebs", "defensive_rebounds"); ("Rebs", "total_rebounds");
   ("A", "assists"); ("TO", "turnovers"); ("S", "steals"); ("B", "blocks");
   ("F", "fouls"); ("DQ", "disqualifications"); ("TFoul", "technical_fouls")].

(** [header_to_field.get(key, key)] *)
Definition field_of_header (key : string) : string :=
  match find (fun hf => String.eqb (fst hf) key) header_to_field with
  | Some hf => snd hf
  | None => key
  end.

(** [map_player_headers_to_player_fields(Player, data)] *)
Definition map_player_headers_to_player_fields (data : dict) : dict :=
  fold_left (fun acc kv => dict_set (field_of_header (fst kv)) (snd kv) acc)
            data [].

(** No character of the text is a superscript digit. *)
Definition is_superscript (c : ascii) : bool :=
  let n := nat_of_ascii c in
  Nat.eqb n 178 || Nat.eqb n 179 || Nat.eqb n 185.

Definition plain_value (v : json) : bool :=
  match v with
  | JStr s => all_chars (fun c => negb (is_superscript c)) s
  | _ => true
  end.

(** A value [normalize_player_stats] has nothing to do on. *)
Definition normal_value (v : json) : bool :=
  match v with
  | JStr s => negb (isdigit s) && negb (String.eqb s "") && negb (String.eqb s "*")
  | _ => true
  end.

End Helpers.

(** ** The messages the client sends *)

Module Client.
Import Messages Stream.



Definition _subscribe (self : LiveStreamStats) (ns : class_attrs)
    (client_id : string) : class_attrs * message :=
  new_subscribe ns (_websocket_message_ext self) client_id (subscription_of self).




End Client.

(** ** Sample data used by the closed examples *)

Module Samples.
Import Text Models Stream Bootstrap.

Definition roe : Player := new_player "Roe" 4 "F" 1 1.

Definition sample_play : Play := mkPlay 7 "Doe(ABC) Layup made" "10:00" 1.

(** A client after bootstrap: one player a side, no shorthand assigned. *)
Definition sample_client : LiveStreamStats :=
  mkLiveStreamStats "MBB" 1
    (mkScoreboard (Some "Away U") None [doe] None)
    (mkScoreboard (Some "Home U") None [roe] None)
    [("livestream_token", ""); ("livestream_user_id", "u1")]
    "livestream_user_id=u1; _stats_session=s1".


(** An object on the subscribed channel whose payload has a shot-chart
    key next to a play. *)
Definition chart_payload_item : dict :=
  [("channel", JStr "/MBB/box_score/1");
   ("data", JObj [("shot_chart", JObj []);
                  ("play_1", JObj [("play_text_1", JStr "Doe(ABC) Layup made");
                                   ("clock_1", JStr "10:00");
                                   ("period_1", JNum 1)])])].

(** An object on another channel. *)
Definition other_channel_item : dict :=
  [("channel", JStr "/MBB/box_score/2");
   ("data", JObj [("play_1", JObj [])])].

(** A decoder that agrees with [json.loads] on the two frames of the
    examples: the empty array, and an opening brace on its own. *)
Definition sample_loads (raw : string) : option (list dict) :=
  if String.eqb raw "[]" then Some [] else None.

(** An aggregator entry that does nothing. *)
Definition idle_process_play_data (play_key : string) (play_info : json)
  : M unit := ret tt.

(** A scrape that finds the two rosters of [sample_client]. *)
Definition sample_get_scoreboards (html : string)
  : exn + (Scoreboard * Scoreboard) :=
  inr (away_scoreboard sample_client, home_scoreboard sample_client).

(** A scrape that agrees with [_get_scoreboards] on the empty page: no
    scoreboard is found there, and the [return] reads names that were never
    bound. *)
Definition empty_page_get_scoreboards (html : string)
  : exn + (Scoreboard * Scoreboard) :=
  if String.eqb html "" then inl (OtherError "UnboundLocalError")
  else sample_get_scoreboards html.

End Samples.

(** * Properties *)

Import Text Regex Models Messages Stream Bootstrap Samples.

(** ** Applying plays to a player *)


Lemma add_play_getattr_unseen (self : Player) (i : Z) (t c : string) (n : Z)
    (g : stat) :
  find_id i (plays self) = None ->
  getattr (player_of (add_play self i t c n)) g = getattr self g + bump g t.
Proof.
  intros H. rewrite (add_play_unseen _ _ _ _ _ H). unfold player_of. simpl.
  rewrite getattr_plays_append. apply update_stats_getattr.
Qed.

Lemma add_play_plays_unseen (self : Player) (i : Z) (t c : string) (n : Z) :
  find_id i (plays self) = None ->
  plays (player_of (add_play self i t c n)) = plays self ++ [mkPlay i t c n].
Proof.
  intros H. rewrite (add_play_unseen _ _ _ _ _ H). unfold player_of. simpl.
  now rewrite update_stats_plays.
Qed.

(** One application moves a counter by nothing or by one. *)
Lemma add_play_getattr_step (self : Player) (i : Z) (t c : string) (n : Z)
    (g : stat) :
  getattr (player_of (add_play self i t c n)) g = getattr self g \/
  getattr (player_of (add_play self i t c n)) g = getattr self g + 1.
Proof.
  destruct (find_id i (plays self)) as [q|] eqn:E.
  - left. now rewrite (add_play_seen _ _ _ _ _ _ E).
  - rewrite (add_play_getattr_unseen _ _ _ _ _ _ E). unfold bump.
    destruct (rule_fires g t); [right | left]; lia.
Qed.



(** C2. The lookup of [add_play] goes by the play identifier alone. Here a
    player who has been given play 7, a made layup, is given a
    submission with the same identifier and another text, clock and
    period: the call returns the earlier play, appends nothing and runs no
    rule, so the free throw is not counted. *)
Theorem add_play_same_id_other_tuple :
  let self := player_of (add_play doe 7 "Doe(ABC) Layup made" "10:00" 1) in
  let r := add_play self 7 "Doe(ABC) Free Throw made" "09:41" 2 in
  ~ In (mkPlay 7 "Doe(ABC) Free Throw made" "09:41" 2) (plays self)
  /\ player_of r = self
  /\ play_of r = sample_play
  /\ plays (player_of r) = [sample_play]
  /\ free_throws_made (player_of r) = 0.
Proof.
  cbv zeta. split.
  - rewrite add_play_plays_unseen by reflexivity. simpl.
    intros [H|[]]. discriminate H.
  - rewrite (add_play_seen _ 7 _ _ _ sample_play) by reflexivity.
    change (player_of (player_of (add_play doe 7 "Doe(ABC) Layup made" "10:00" 1),
                       sample_play, []))
      with (player_of (add_play doe 7 "Doe(ABC) Layup made" "10:00" 1)).
    split; [reflexivity|]. split; [reflexivity|]. split.
    + now rewrite add_play_plays_unseen by reflexivity.
    + change (getattr (player_of (add_play doe 7 "Doe(ABC) Layup made" "10:00" 1)) H_FTM = 0).
      rewrite add_play_getattr_unseen by reflexivity. reflexivity.
Qed.

(** C3, as the specification states it, fails on the fresh player Doe:
    "Doe(ABC) made Layup" leaves [field_goals_made] at 0. *)
Lemma made_layup_leaves_field_goals_made :
  let self := player_of (add_play doe 7 "Doe(ABC) made Layup" "10:00" 1) in
  field_goals_made self = 0
  /\ ~ (field_goals_made self = field_goals_made doe + 1
        /\ field_goals_attempted self = field_goals_attempted doe + 1).
Proof.
  cbv zeta.
  assert (H : field_goals_made
                (player_of (add_play doe 7 "Doe(ABC) made Layup" "10:00" 1)) = 0).
  { change (getattr (player_of (add_play doe 7 "Doe(ABC) made Layup" "10:00" 1)) H_FGM = 0).
    rewrite add_play_getattr_unseen by reflexivity. reflexivity. }
  split; [exact H|]. rewrite H. intros [H' _]. discriminate H'.
Qed.

(** C3, amended. For a player who holds no play with the identifier,
    "Doe(ABC) made Layup" adds one to [field_goals_attempted] and leaves
    [field_goals_made] as it was: the pattern [(jump shot|layup).*made]
    wants the kind of shot before "made". With the words in that order,
    "Doe(ABC) Layup made", both counters grow by one in the same call. *)
Theorem made_layup_counts (self : Player) (i : Z) (c : string) (n : Z) :
  find_id i (plays self) = None ->
  (let after := player_of (add_play self i "Doe(ABC) made Layup" c n) in
   field_goals_attempted after = field_goals_attempted self + 1
   /\ field_goals_made after = field_goals_made self)
  /\
  (let after := player_of (add_play self i "Doe(ABC) Layup made" c n) in
   field_goals_attempted after = field_goals_attempted self + 1
   /\ field_goals_made after = field_goals_made self + 1).
Proof.
  intros H. cbv zeta.
  pose proof (add_play_getattr_unseen self i "Doe(ABC) made Layup" c n H_FGA H) as A1.
  pose proof (add_play_getattr_unseen self i "Doe(ABC) made Layup" c n H_FGM H) as A2.
  pose proof (add_play_getattr_unseen self i "Doe(ABC) Layup made" c n H_FGA H) as B1.
  pose proof (add_play_getattr_unseen self i "Doe(ABC) Layup made" c n H_FGM H) as B2.
  change (bump H_FGA "Doe(ABC) made Layup") with 1 in A1.
  change (bump H_FGM "Doe(ABC) made Layup") with 0 in A2.
  change (bump H_FGA "Doe(ABC) Layup made") with 1 in B1.
  change (bump H_FGM "Doe(ABC) Layup made") with 1 in B2.
  rewrite Z.add_0_r in A2.
  repeat split; assumption.
Qed.

Lemma made_layup_counts_witness :
  (let after := player_of (add_play doe 7 "Doe(ABC) made Layup" "10:00" 1) in
   field_goals_attempted after = field_goals_attempted doe + 1
   /\ field_goals_made after = field_goals_made doe)
  /\
  (let after := player_of (add_play doe 7 "Doe(ABC) Layup made" "10:00" 1) in
   field_goals_attempted after = field_goals_attempted doe + 1
   /\ field_goals_made after = field_goals_made doe + 1).
Proof. apply (made_layup_counts doe 7 "10:00" 1). reflexivity. Defined.

(** C9. No application of a play lowers a counter: one call of [add_play]
    leaves each counting statistic as it was or adds one to it, and so
    after any run of submissions every counter is at least what it was
    before. *)
Theorem counters_never_decrease :
  (forall (self : Player) (s : submission) (g : stat),
      getattr (apply_play self s) g = getattr self g \/
      getattr (apply_play self s) g = getattr self g + 1)
  /\
  (forall (l : list submission) (self : Player) (g : stat),
      getattr self g <= getattr (apply_plays self l) g).
Proof.
  assert (Step : forall (self : Player) (s : submission) (g : stat),
             getattr (apply_play self s) g = getattr self g \/
             getattr (apply_play self s) g = getattr self g + 1).
  { intros self [[[i t] c] n] g. apply add_play_getattr_step. }
  split; [exact Step|].
  induction l as [|s l IH]; intros self g.
  - unfold apply_plays. simpl. lia.
  - change (apply_plays self (s :: l)) with (apply_plays (apply_play self s) l).
    specialize (IH (apply_play self s) g).
    destruct (Step self s g); lia.
Qed.



(** ** Message identifiers *)

(** From the namespaces as the module leaves them, every message gets the
    number of earlier messages of its own class, not of all classes. *)
Lemma ids_observed_initial (l : list variant) :
  ids_observed initial_attrs l = ids_by_class [] l.
Proof. apply ids_observed_by_class. intros c. reflexivity. Qed.

(** C4. The identifiers over the constructions of one connection, a
    handshake, a connect, a subscribe and the first keep-alive connect:
    the first three are all "0", so the sequence does not increase. The
    assignment [self.__class__._id_counter += 1] binds the counter in the
    subclass, and each class counts on its own from the 0 of
    [BaseMessage]. *)
Theorem ids_repeat_across_classes :
  ids_observed initial_attrs
    [HandshakeMessage; ConnectMessage; SubscribeMessage; ConnectMessage]
  = ["0"; "0"; "0"; "1"]
  /\ BaseMessage_id_counter
       (fst (construct (fst (construct initial_attrs HandshakeMessage))
                       ConnectMessage)) = 0.
Proof. split; reflexivity. Qed.

(** ** Resolving references to players *)







(** ** The router *)

Lemma play_submissions_nil_cases (self : LiveStreamStats) (item : dict) :
  channel_is self item = false
  \/ has_payload item = false
  \/ dict_in "chart" item = true
  \/ dict_in "shot_chart" item = true ->
  play_submissions self item = [].
Proof.
  unfold play_submissions, _is_relevant_message, channel_is, has_payload,
    _extract_play_data.
  intros [H | [H | [H | H]]].
  - rewrite H, andb_false_r. reflexivity.
  - destruct (_ && _ && _ && _ && _); [|reflexivity].
    destruct (dict_get "data" item) as [[| | | | |[|kv data]]|];
      try reflexivity; discriminate.
  - rewrite H. simpl. rewrite andb_false_r. reflexivity.
  - rewrite H. simpl. rewrite andb_false_r. reflexivity.
Qed.

(** What [process_item] does, by the submissions it hands on. *)
Lemma process_item_unfold (h : string -> json -> M unit) (item : dict)
    (self : LiveStreamStats) :
  process_item h item self =
  if _is_relevant_message self item then
    match _extract_play_data item with
    | inl e => (self, inl e)
    | inr play_data =>
        for_each (fun kv => h (fst kv) (snd kv)) play_data self
    end
  else (self, inr tt).
Proof.
  unfold process_item, bind, get_self, lift, ret.
  destruct (_is_relevant_message self item); simpl; [|reflexivity].
  now destruct (_extract_play_data item).
Qed.

(** C6, as the specification states it, fails: an object on the
    subscribed channel whose payload holds a [shot_chart] key next to a
    play is relevant, and its play is handed on. *)
Lemma chart_key_in_payload_is_forwarded :
  channel_is sample_client chart_payload_item = true
  /\ payload_has_key "shot_chart" chart_payload_item = true
  /\ _is_relevant_message sample_client chart_payload_item = true
  /\ play_submissions sample_client chart_payload_item =
     [("play_1", JObj [("play_text_1", JStr "Doe(ABC) Layup made");
                       ("clock_1", JStr "10:00");
                       ("period_1", JNum 1)])].
Proof. repeat split; reflexivity. Qed.

(** C6, amended. An object hands on no play submission unless its channel
    equals the subscribed channel and it carries a non-empty payload map;
    and an object that has a [chart] or [shot_chart] key of its own, next
    to [channel] and [data], hands on none. In each of these cases the
    aggregator's entry is not called: what [process_item] does is the same
    for every entry. *)
Theorem router_filters (self : LiveStreamStats) (item : dict) :
  channel_is self item = false
  \/ has_payload item = false
  \/ dict_in "chart" item = true
  \/ dict_in "shot_chart" item = true ->
  play_submissions self item = []
  /\ forall h1 h2 : string -> json -> M unit,
       process_item h1 item self = process_item h2 item self.
Proof.
  intros H. pose proof (play_submissions_nil_cases self item H) as Hnil.
  split; [exact Hnil|]. intros h1 h2. rewrite !process_item_unfold.
  unfold play_submissions in Hnil.
  destruct (_is_relevant_message self item); [|reflexivity].
  destruct (_extract_play_data item) as [e|play_data]; [reflexivity|].
  rewrite Hnil. reflexivity.
Qed.

Lemma router_filters_witness :
  play_submissions sample_client other_channel_item = []
  /\ forall h1 h2 : string -> json -> M unit,
       process_item h1 other_channel_item sample_client =
       process_item h2 other_channel_item sample_client.
Proof.
  apply (router_filters sample_client other_channel_item).
  left. reflexivity.
Defined.

(** ** The frame-processing task *)

Lemma for_each_app {A : Type} (body : A -> M unit) (l1 l2 : list A)
    (self : LiveStreamStats) :
  for_each body (l1 ++ l2) self =
  match for_each body l1 self with
  | (self', inr _) => for_each body l2 self'
  | (self', inl e) => (self', inl e)
  end.
Proof.
  revert self; induction l1 as [|a l1 IH]; intros self; simpl.
  - reflexivity.
  - unfold bind. destruct (body a self) as [self1 [e|[]]]; [reflexivity|].
    apply IH.
Qed.

Lemma process_raw_undecodable {Raw : Type} (loads : Raw -> option (list dict))
    (h : string -> json -> M unit) (raw : Raw) (self : LiveStreamStats) :
  loads raw = None ->
  process_raw Raw loads h raw self = (self, inl JSONDecodeError).
Proof. intros H. unfold process_raw, bind, lift. now rewrite H. Qed.

(** C7, as the specification states it, fails: of the two frames, an
    opening brace and then an empty array, the first cannot be decoded;
    the task ends there with the decoder's exception, whatever follows,
    and [stream], which catches a closed connection only, lets it
    through. *)
Lemma undecodable_frame_is_not_skipped :
  sample_loads "{" = None
  /\ sample_loads "[]" = Some []
  /\ _process_messages string sample_loads idle_process_play_data
       ["{"; "[]"] sample_client
     = (sample_client, inl JSONDecodeError)
  /\ _process_messages string sample_loads idle_process_play_data
       ["[]"] sample_client
     = (sample_client, inr tt)
  /\ on_task_exception JSONDecodeError = Propagate JSONDecodeError.
Proof. repeat split; reflexivity. Qed.

(** C7, amended. A frame that cannot be decoded ends the
    frame-processing task: when the frames before it have been processed,
    the task raises the decoder's exception at that frame, with the client
    as those frames left it, and no frame after it is processed, whatever
    it holds. The exception is not the one [stream] catches, so [stream]
    does not reconnect but lets it through. *)
Theorem undecodable_frame_ends_task
    (Raw : Type) (loads : Raw -> option (list dict))
    (h : string -> json -> M unit)
    (before : list Raw) (bad : Raw) (rest : list Raw)
    (self self' : LiveStreamStats) :
  loads bad = None ->
  _process_messages Raw loads h before self = (self', inr tt) ->
  _process_messages Raw loads h (before ++ bad :: rest) self
  = (self', inl JSONDecodeError)
  /\ on_task_exception JSONDecodeError = Propagate JSONDecodeError.
Proof.
  intros Hbad Hbefore. split; [|reflexivity].
  unfold _process_messages in *. rewrite for_each_app, Hbefore. simpl.
  unfold bind. now rewrite (process_raw_undecodable loads h bad self' Hbad).
Qed.

Lemma undecodable_frame_ends_task_witness :
  _process_messages string sample_loads idle_process_play_data
    (["[]"; "[]"] ++ "{" :: ["[]"]) sample_client
  = (sample_client, inl JSONDecodeError)
  /\ on_task_exception JSONDecodeError = Propagate JSONDecodeError.
Proof.
  apply (undecodable_frame_ends_task string sample_loads idle_process_play_data
           ["[]"; "[]"] "{" ["[]"] sample_client sample_client);
    reflexivity.
Defined.

(** ** Bootstrap *)

Lemma user_id_absent (h : string) :
  contains "livestream_user_id=" h = false ->
  group_or_empty (fst (user_id_group h)) = "".
Proof.
  intros H. destruct (user_id_group h) as [[v|] rest] eqn:E; [|reflexivity].
  apply user_id_group_some in E.
  assert (C : contains "livestream_user_id=" h = true).
  { apply contains_split. exists "", (v ++ String ";" rest)%string. exact E. }
  congruence.
Qed.

Lemma session_absent (h : string) :
  contains "_stats_session=" h = false ->
  group_or_empty (session_group (snd (user_id_group h))) = "".
Proof.
  intros H.
  destruct (session_group (snd (user_id_group h))) as [v|] eqn:E; [|reflexivity].
  apply session_group_some in E.
  assert (C : contains "_stats_session=" h = true).
  { destruct (user_id_group h) as [[u|] rest] eqn:Eu; simpl in E.
    - apply user_id_group_some in Eu. rewrite Eu.
      apply contains_suffix.
      change (u ++ String ";" rest)%string with (u ++ (";" ++ rest))%string.
      now do 2 apply contains_suffix.
    - apply user_id_group_none in Eu. now subst. }
  congruence.
Qed.

(** C8, as the specification states it, fails. The fetch succeeds with
    status 200 and a response that has no [Set-Cookie] header, and
    [__init__] raises on reading the header. The fetch succeeds with both
    tokens in the header and an empty page, and [__init__] raises in the
    scrape. *)
Lemma missing_header_is_fatal :
  fetch_url (Replied 200 (mkResponse [("Content-Type", "text/html")] ""))
  = Some (mkResponse [("Content-Type", "text/html")] "")
  /\ bootstrap sample_get_scoreboards "MBB" 1
       (Replied 200 (mkResponse [("Content-Type", "text/html")] ""))
     = inl KeyError
  /\ bootstrap empty_page_get_scoreboards "MBB" 1
       (Replied 200
          (mkResponse
             [("Set-Cookie", "livestream_user_id=u1; _stats_session=s1; path=/")]
             ""))
     = inl (OtherError "UnboundLocalError").
Proof. repeat split; reflexivity. Qed.

(** C8, amended. Bootstrap fails when the fetch fails: [fetch_url] gives
    [None] and reading the headers of it raises. When the fetch succeeds,
    the response has a [Set-Cookie] header and the page yields the two
    scoreboards, bootstrap produces the client, whatever the header
    holds; the user token is the empty string when the header does not
    hold [livestream_user_id=], the session token is the empty string when
    it does not hold [_stats_session=], each on its own. *)
Theorem bootstrap_outcomes
    (get_scoreboards : string -> exn + (Scoreboard * Scoreboard))
    (sports_code : string) (game_id : Z) (t : transport) :
  (fetch_url t = None ->
   bootstrap get_scoreboards sports_code game_id t = inl AttributeError)
  /\
  (forall (r : Response) (h : string) (away home : Scoreboard),
      fetch_url t = Some r ->
      header r "Set-Cookie" = Some h ->
      get_scoreboards (text r) = inr (away, home) ->
      let user := group_or_empty (fst (user_id_group h)) in
      let session := group_or_empty (session_group (snd (user_id_group h))) in
      bootstrap get_scoreboards sports_code game_id t =
      inr (mkLiveStreamStats sports_code game_id away home
             [("livestream_token", ""); ("livestream_user_id", user)]
             ("livestream_user_id=" ++ user ++ "; _stats_session=" ++ session)%string)
      /\ (contains "livestream_user_id=" h = false -> user = "")
      /\ (contains "_stats_session=" h = false -> session = "")).
Proof.
  split.
  - intros H. unfold bootstrap. now rewrite H.
  - intros r h away home Hf Hh Hs user session. split; [|split].
    + unfold bootstrap, __init__. rewrite Hf, Hh.
      unfold user, session. destruct (user_id_group h) as [g1 rest].
      simpl. now rewrite Hs.
    + apply user_id_absent.
    + apply session_absent.
Qed.

Lemma bootstrap_outcomes_witness :
  bootstrap sample_get_scoreboards "MBB" 1 RequestException = inl AttributeError
  /\ bootstrap sample_get_scoreboards "MBB" 1
       (Replied 200 (mkResponse [("set-cookie", "_stats_session=s1; path=/")] ""))
     = inr (mkLiveStreamStats "MBB" 1
              (away_scoreboard sample_client) (home_scoreboard sample_client)
              [("livestream_token", ""); ("livestream_user_id", "")]
              "livestream_user_id=; _stats_session=s1").
Proof.
  destruct (bootstrap_outcomes sample_get_scoreboards "MBB" 1 RequestException)
    as [H1 _].
  destruct (bootstrap_outcomes sample_get_scoreboards "MBB" 1
              (Replied 200 (mkResponse [("set-cookie", "_stats_session=s1; path=/")] "")))
    as [_ H2].
  split; [exact (H1 eq_refl)|].
  exact (proj1 (H2 _ _ _ _ eq_refl eq_refl eq_refl)).
Defined.

(** * Further properties of the code *)

Import PlayText Aggregator Helpers Client.

(** ** Players under runs of submissions *)

Lemma find_id_none_iff (i : Z) (l : list Play) :
  find_id i l = None <-> ~ In i (map play_id l).
Proof.
  unfold find_id. induction l as [|q l IH]; simpl.
  - split; [intros _ [] | reflexivity].
  - destruct (play_id q =? i) eqn:E.
    + apply Z.eqb_eq in E. split; [discriminate | intros H; exfalso; apply H; now left].
    + apply Z.eqb_neq in E. rewrite IH. split.
      * intros H [H'|H']; [contradiction | now apply H].
      * intros H H'. apply H. now right.
Qed.

(** The attributes of a player that are no counting statistic. *)
Definition identity_of (p : Player) : string * Z * string * Z * Z * string :=
  (name p, number p, position p, starter p, on_court p, minutes_played p).

Lemma identity_setattr (self : Player) (f : stat) (v : Z) :
  identity_of (setattr self f v) = identity_of self.
Proof. destruct f; reflexivity. Qed.

Lemma update_fold_identity (text : string) (l : list stat) :
  forall self m,
    identity_of (fst (fold_left (update_step text) l (self, m))) = identity_of self.
Proof.
  induction l as [|f l IH]; intros self m; simpl; [reflexivity|].
  destruct (rule_fires f text); rewrite IH; [apply identity_setattr | reflexivity].
Qed.

Lemma update_stats_identity (self : Player) (text : string) :
  identity_of (fst (_update_stats_from_play self text)) = identity_of self.
Proof.
  unfold _update_stats_from_play.
  pose proof (update_fold_identity text stat_fields self false) as H.
  destruct (fold_left _ _ _) as [p m]. simpl in H.
  destruct (negb m); exact H.
Qed.

(** What one submission does to a player, by the lookup. *)
Lemma apply_play_cases (self : Player) (i : Z) (t c : string) (n : Z) :
  (find_id i (plays self) <> None /\ apply_play self (i, t, c, n) = self)
  \/
  (find_id i (plays self) = None
   /\ plays (apply_play self (i, t, c, n)) = plays self ++ [mkPlay i t c n]
   /\ identity_of (apply_play self (i, t, c, n)) = identity_of self
   /\ forall g, getattr (apply_play self (i, t, c, n)) g = getattr self g + bump g t).
Proof.
  change (apply_play self (i, t, c, n)) with (player_of (add_play self i t c n)).
  destruct (find_id i (plays self)) as [q|] eqn:E.
  - left. split; [discriminate|]. now rewrite (add_play_seen _ _ _ _ _ _ E).
  - right. split; [reflexivity|]. split; [now apply add_play_plays_unseen|]. split.
    + rewrite (add_play_unseen _ _ _ _ _ E). unfold player_of. simpl.
      apply update_stats_identity.
    + intros g. now apply add_play_getattr_unseen.
Qed.

Lemma bump_unruled (g : stat) (t : string) : regex g = None -> bump g t = 0.
Proof. intros H. unfold bump, rule_fires. now rewrite H. Qed.

(** X1. A counter whose field has no pattern (points, the three rebound
    counters, assists, steals, blocks, disqualifications and technical
    fouls) is never changed by [add_play], over any run of submissions. *)
Theorem unruled_counters_never_move (g : stat) (l : list submission) (self : Player) :
  regex g = None ->
  getattr (apply_plays self l) g = getattr self g.
Proof.
  intros Hg. revert self. induction l as [|[[[i t] c] n] l IH]; intros self.
  - reflexivity.
  - change (apply_plays self ((i, t, c, n) :: l))
      with (apply_plays (apply_play self (i, t, c, n)) l).
    rewrite IH.
    destruct (apply_play_cases self i t c n) as [[_ ->] | (_ & _ & _ & H)];
      [reflexivity|].
    rewrite H, (bump_unruled g t Hg). lia.
Qed.

Lemma unruled_counters_never_move_witness :
  points (apply_plays doe [(1, "Doe(ABC) 3pt jump shot made", "19:40", 1);
                           (2, "Doe(ABC) free throw made", "18:02", 1)])
  = points doe.
Proof.
  apply (unruled_counters_never_move H_PTS
           [(1, "Doe(ABC) 3pt jump shot made", "19:40", 1);
            (2, "Doe(ABC) free throw made", "18:02", 1)] doe).
  reflexivity.
Defined.

(** X2. The sequence of plays only grows at its end: after any run of
    submissions the plays of before are the head of the sequence, every
    play behind them is one of the submissions, and there are no more of
    them than submissions. *)
Theorem plays_are_append_only (l : list submission) (self : Player) :
  exists added,
    plays (apply_plays self l) = plays self ++ added
    /\ (length added <= length l)%nat
    /\ forall q, In q added -> In (play_id q, play_text q, clock q, period q) l.
Proof.
  revert self. induction l as [|[[[i t] c] n] l IH]; intros self.
  - exists []. simpl. rewrite app_nil_r. repeat split; [lia | intros q []].
  - change (apply_plays self ((i, t, c, n) :: l))
      with (apply_plays (apply_play self (i, t, c, n)) l).
    destruct (IH (apply_play self (i, t, c, n))) as (added & Hp & Hl & Hin).
    destruct (apply_play_cases self i t c n) as [[_ E] | (_ & E & _ & _)].
    + rewrite E in *. exists added. split; [exact Hp|]. split; [simpl; lia|].
      intros q Hq. right. now apply Hin.
    + exists (mkPlay i t c n :: added). rewrite Hp, E, <- List.app_assoc.
      split; [reflexivity|]. split; [simpl; lia|].
      intros q [<-|Hq]; [now left | right; now apply Hin].
Qed.

Lemma NoDup_snoc {A : Type} (l : list A) (x : A) :
  NoDup l -> ~ In x l -> NoDup (l ++ [x]).
Proof.
  induction 1 as [|y l Hy Hl IH]; intros Hx; simpl.
  - constructor; [intros [] | constructor].
  - constructor.
    + rewrite in_app_iff. intros [H|[H|[]]]; [contradiction|].
      apply Hx. now left.
    + apply IH. intros H. apply Hx. now right.
Qed.

(** X3. [add_play] keeps the play identifiers of a player distinct: if no
    two plays share an identifier before a run of submissions, none do
    after it. *)
Theorem play_ids_stay_distinct (l : list submission) (self : Player) :
  NoDup (map play_id (plays self)) ->
  NoDup (map play_id (plays (apply_plays self l))).
Proof.
  revert self. induction l as [|[[[i t] c] n] l IH]; intros self H.
  - exact H.
  - change (apply_plays self ((i, t, c, n) :: l))
      with (apply_plays (apply_play self (i, t, c, n)) l).
    apply IH.
    destruct (apply_play_cases self i t c n) as [[_ ->] | (E & -> & _ & _)];
      [exact H|].
    rewrite map_app. simpl. apply NoDup_snoc; [exact H|].
    now apply find_id_none_iff.
Qed.

Lemma play_ids_stay_distinct_witness :
  NoDup (map play_id
           (plays (apply_plays doe [(1, "Doe(ABC) layup made", "19:40", 1);
                                    (1, "Doe(ABC) foul", "19:40", 1);
                                    (2, "Doe(ABC) turnover", "18:02", 1)]))).
Proof.
  apply (play_ids_stay_distinct
           [(1, "Doe(ABC) layup made", "19:40", 1);
            (1, "Doe(ABC) foul", "19:40", 1);
            (2, "Doe(ABC) turnover", "18:02", 1)] doe).
  constructor.
Defined.

(** X4. No run of submissions changes the name, number, position, starter
    and on-court flags or the minutes of a player. *)
Theorem identity_never_changes (l : list submission) (self : Player) :
  name (apply_plays self l) = name self
  /\ number (apply_plays self l) = number self
  /\ position (apply_plays self l) = position self
  /\ starter (apply_plays self l) = starter self
  /\ on_court (apply_plays self l) = on_court self
  /\ minutes_played (apply_plays self l) = minutes_played self.
Proof.
  assert (H : identity_of (apply_plays self l) = identity_of self).
  { revert self. induction l as [|[[[i t] c] n] l IH]; intros self; [reflexivity|].
    change (apply_plays self ((i, t, c, n) :: l))
      with (apply_plays (apply_play self (i, t, c, n)) l).
    rewrite IH.
    destruct (apply_play_cases self i t c n) as [[_ ->] | (_ & _ & E & _)];
      [reflexivity | exact E]. }
  unfold identity_of in H. injection H as -> -> -> -> -> ->. repeat split.
Qed.

(** A text on which a pattern of the shape [...made] matches fires every
    pattern with the alternative [|made]. *)
Lemma made_pattern_fires_alternative (a b : re) (text : string) :
  search (Cat a (Cat (Star Dot) (Lit "made"))) text = true ->
  search (Alt b (Lit "made")) text = true.
Proof.
  intros H. apply search_spec in H as (pre & m & post & -> & H).
  apply cat_inv in H as (m1 & m' & -> & _ & H).
  apply cat_inv in H as (m2 & m3 & -> & _ & H).
  apply search_spec. exists (pre ++ m1 ++ m2)%string, m3, post. split.
  - now rewrite !Regex.app_assoc.
  - now apply MAltR.
Qed.

Lemma bump_range (g : stat) (t : string) : 0 <= bump g t <= 1.
Proof. unfold bump. destruct (rule_fires g t); lia. Qed.

Lemma bump_made_le_attempted (t : string) :
  bump H_FGM t <= bump H_FGA t
  /\ bump H_3FGM t <= bump H_3FGA t
  /\ bump H_FTM t <= bump H_FTA t.
Proof.
  unfold bump, rule_fires. cbn [regex].
  repeat split;
    match goal with
    | |- (if search ?r t then _ else _) <= _ =>
        destruct (search r t) eqn:E;
        [rewrite (made_pattern_fires_alternative _ _ _ E); lia
        | match goal with |- _ <= (if ?b then _ else _) => destruct b; lia end]
    end.
Qed.

(** X5. Whatever fires a made rule fires the matching attempt rule, so
    over any run of submissions attempts less makes never shrinks, for
    field goals, three-point field goals and free throws alike; a player
    whose makes do not exceed the attempts stays so. *)
Theorem makes_never_outgrow_attempts (l : list submission) (self : Player) :
  field_goals_attempted self - field_goals_made self
  <= field_goals_attempted (apply_plays self l)
     - field_goals_made (apply_plays self l)
  /\ three_point_field_goals_attempted self - three_point_field_goals_made self
     <= three_point_field_goals_attempted (apply_plays self l)
        - three_point_field_goals_made (apply_plays self l)
  /\ free_throws_attempted self - free_throws_made self
     <= free_throws_attempted (apply_plays self l)
        - free_throws_made (apply_plays self l).
Proof.
  revert self. induction l as [|[[[i t] c] n] l IH]; intros self.
  - unfold apply_plays. simpl. lia.
  - change (apply_plays self ((i, t, c, n) :: l))
      with (apply_plays (apply_play self (i, t, c, n)) l).
    specialize (IH (apply_play self (i, t, c, n))).
    destruct (apply_play_cases self i t c n) as [[_ E] | (_ & _ & _ & H)].
    + rewrite E in IH |- *. exact IH.
    + pose proof (H H_FGM) as A1. pose proof (H H_FGA) as A2.
      pose proof (H H_3FGM) as B1. pose proof (H H_3FGA) as B2.
      pose proof (H H_FTM) as C1. pose proof (H H_FTA) as C2.
      cbn [getattr] in A1, A2, B1, B2, C1, C2.
      pose proof (bump_made_le_attempted t). lia.
Qed.

(** X6. [field_goals_attempted] and [free_throws_attempted] carry the same
    pattern, so every run of submissions moves the two by the same
    amount: a free throw counts as a field goal attempt and a field goal
    as a free throw attempt. *)
Theorem field_goal_and_free_throw_attempts_move_together
    (l : list submission) (self : Player) :
  field_goals_attempted (apply_plays self l) - field_goals_attempted self
  = free_throws_attempted (apply_plays self l) - free_throws_attempted self.
Proof.
  revert self. induction l as [|[[[i t] c] n] l IH]; intros self.
  - unfold apply_plays. simpl. lia.
  - change (apply_plays self ((i, t, c, n) :: l))
      with (apply_plays (apply_play self (i, t, c, n)) l).
    specialize (IH (apply_play self (i, t, c, n))).
    destruct (apply_play_cases self i t c n) as [[_ E] | (_ & _ & _ & H)].
    + rewrite E in IH |- *. exact IH.
    + pose proof (H H_FGA) as A. pose proof (H H_FTA) as B.
      cbn [getattr] in A, B.
      change (bump H_FTA t) with (bump H_FGA t) in B. lia.
Qed.

Lemma update_fold_matched (text : string) (l : list stat) :
  forall self m,
    snd (fold_left (update_step text) l (self, m)) =
    m || existsb (fun f => rule_fires f text) l.
Proof.
  induction l as [|f l IH]; intros self m; simpl.
  - now rewrite orb_false_r.
  - destruct (rule_fires f text); rewrite IH; simpl.
    + now rewrite orb_true_r.
    + reflexivity.
Qed.

Lemma update_fold_unmatched (text : string) (l : list stat) :
  existsb (fun f => rule_fires f text) l = false ->
  forall self m, fst (fold_left (update_step text) l (self, m)) = self.
Proof.
  induction l as [|f l IH]; intros H self m; simpl; [reflexivity|].
  simpl in H. apply orb_false_iff in H as [Hf Hl].
  rewrite Hf. now apply IH.
Qed.

(** X7. [_update_stats_from_play] prints the line "Unmatched play text:"
    with the text exactly when no pattern matches it, and then it leaves
    the player as it was; when some pattern matches it prints nothing. *)
Theorem unmatched_text_is_reported (self : Player) (text : string) :
  _update_stats_from_play self text =
  if existsb (fun f => rule_fires f text) stat_fields
  then (fst (_update_stats_from_play self text), [])
  else (self, ["Unmatched play text: " ++ text]%string).
Proof.
  unfold _update_stats_from_play.
  pose proof (update_fold_matched text stat_fields self false) as Hm.
  pose proof (update_fold_unmatched text stat_fields) as Hu.
  destruct (fold_left (update_step text) stat_fields (self, false)) as [p m] eqn:E.
  cbn [snd orb] in Hm. rewrite Hm.
  destruct (existsb (fun f => rule_fires f text) stat_fields) eqn:Ex; cbn [negb fst].
  - reflexivity.
  - specialize (Hu eq_refl self false). rewrite E in Hu. cbn [fst] in Hu.
    now rewrite Hu.
Qed.

(** ** Texts: [split], [strip], [int] and [str] *)

Lemma split_on_cons (sep : ascii) (s : string) :
  exists piece pieces, split_on sep s = piece :: pieces.
Proof.
  induction s as [|c s [piece [pieces IH]]]; simpl.
  - now exists "", [].
  - destruct (Ascii.eqb c sep).
    + now exists "", (split_on sep s).
    + rewrite IH. now exists (String c piece), pieces.
Qed.

(** X8. [split] and [join] are a round trip: joining the pieces of a text
    with the separator gives the text back; there is always at least one
    piece, and no piece holds the separator. *)
Theorem split_then_join (sep : ascii) (s : string) :
  join sep (split_on sep s) = s
  /\ split_on sep s <> []
  /\ Forall (fun piece => all_chars (fun c => negb (Ascii.eqb c sep)) piece = true)
            (split_on sep s).
Proof.
  induction s as [|c s (IHj & IHn & IHf)]; simpl.
  - repeat split; [discriminate | repeat constructor].
  - destruct (split_on_cons sep s) as [piece [pieces E]].
    destruct (Ascii.eqb c sep) eqn:Ec.
    + apply Ascii.eqb_eq in Ec as ->. rewrite E in *.
      change (join sep ("" :: piece :: pieces))
        with (String sep (join sep (piece :: pieces))).
      rewrite IHj. repeat split; [discriminate | now constructor].
    + rewrite E in *. repeat split.
      * destruct pieces as [|p ps].
        -- simpl in *. now rewrite IHj.
        -- change (join sep (String c piece :: p :: ps))
             with (String c (join sep (piece :: p :: ps))).
           now rewrite IHj.
      * discriminate.
      * inversion IHf as [|? ? Hp Hps]; subst. constructor; [|exact Hps].
        simpl. now rewrite Ec, Hp.
Qed.

Lemma lstrip_split (s : string) :
  exists a, s = (a ++ lstrip s)%string /\ all_chars is_space a = true
            /\ match lstrip s with
               | String c _ => is_space c = false
               | EmptyString => True
               end.
Proof.
  induction s as [|c s (a & E & Ha & Hh)]; simpl.
  - now exists "".
  - destruct (is_space c) eqn:Ec.
    + exists (String c a). simpl. rewrite Ec, Ha. now rewrite <- E.
    + exists "". now simpl.
Qed.

Lemma rstrip_split (s : string) :
  exists b, s = (rstrip s ++ b)%string /\ all_chars is_space b = true.
Proof.
  induction s as [|c s (b & E & Hb)]; simpl.
  - now exists "".
  - destruct (is_space c && is_empty (rstrip s)) eqn:Ec.
    + apply andb_true_iff in Ec as [Ec Er].
      destruct (rstrip s); [|discriminate]. simpl in E. subst s.
      exists (String c b). simpl. now rewrite Ec, Hb.
    + exists b. simpl. now rewrite <- E.
Qed.

(** The last character of a text, if any. *)
Fixpoint last_char (s : string) : option ascii :=
  match s with
  | EmptyString => None
  | String c EmptyString => Some c
  | String _ s' => last_char s'
  end.

Lemma rstrip_last (s : string) :
  match last_char (rstrip s) with
  | Some c => is_space c = false
  | None => True
  end.
Proof.
  induction s as [|c s IH]; simpl; [exact I|].
  destruct (is_space c && is_empty (rstrip s)) eqn:Ec; [exact I|].
  destruct (rstrip s) as [|d r] eqn:Er.
  - simpl. rewrite andb_true_r in Ec. exact Ec.
  - exact IH.
Qed.

Lemma rstrip_head (s : string) (c : ascii) :
  is_space c = false -> rstrip (String c s) = String c (rstrip s).
Proof. intros H. simpl. now rewrite H. Qed.

(** X9. [strip] removes white space at the two ends and nothing else: the
    text is white space, then its stripped form, then white space, and
    the stripped form neither begins nor ends with white space. *)
Theorem strip_removes_outer_space (s : string) :
  (exists a b, s = (a ++ strip s ++ b)%string
               /\ all_chars is_space a = true /\ all_chars is_space b = true)
  /\ match strip s with
     | String c _ => is_space c = false
     | EmptyString => True
     end
  /\ match last_char (strip s) with
     | Some c => is_space c = false
     | None => True
     end.
Proof.
  unfold strip. destruct (lstrip_split s) as (a & Ea & Ha & Hh).
  destruct (rstrip_split (lstrip s)) as (b & Eb & Hb).
  split; [|split].
  - exists a, b. split; [|now split]. now rewrite <- Eb.
  - destruct (lstrip s) as [|c r]; [exact I|]. now rewrite (rstrip_head r c Hh).
  - apply rstrip_last.
Qed.

(** The value of the digits of a decimal number, read from the left. *)
Fixpoint uint_digits (u : Decimal.uint) (acc : Z) : Z :=
  match u with
  | Decimal.Nil => acc
  | Decimal.D0 l => uint_digits l (10 * acc)
  | Decimal.D1 l => uint_digits l (10 * acc + 1)
  | Decimal.D2 l => uint_digits l (10 * acc + 2)
  | Decimal.D3 l => uint_digits l (10 * acc + 3)
  | Decimal.D4 l => uint_digits l (10 * acc + 4)
  | Decimal.D5 l => uint_digits l (10 * acc + 5)
  | Decimal.D6 l => uint_digits l (10 * acc + 6)
  | Decimal.D7 l => uint_digits l (10 * acc + 7)
  | Decimal.D8 l => uint_digits l (10 * acc + 8)
  | Decimal.D9 l => uint_digits l (10 * acc + 9)
  end.

Ltac eval_digit :=
  cbn [NilEmpty.string_of_uint digits_value uint_digits];
  repeat match goal with
         | |- context [digit_value ?c] =>
             let v := eval vm_compute in (digit_value c) in
             change (digit_value c) with v
         end;
  cbv iota beta.

Lemma digits_value_uint (u : Decimal.uint) :
  forall acc, digits_value (NilEmpty.string_of_uint u) acc true
              = Some (uint_digits u acc).
Proof.
  induction u; intros acc; eval_digit; try reflexivity;
    rewrite IHu; f_equal; f_equal; lia.
Qed.

Lemma digits_value_uint_start (u : Decimal.uint) (acc : Z) :
  u <> Decimal.Nil ->
  digits_value (NilEmpty.string_of_uint u) acc false = Some (uint_digits u acc).
Proof.
  destruct u; intros H; [contradiction| ..]; eval_digit;
    rewrite digits_value_uint; f_equal; f_equal; lia.
Qed.

Lemma uint_digits_pos (u : Decimal.uint) :
  forall acc, uint_digits u (Z.pos acc) = Z.pos (Pos.of_uint_acc u acc).
Proof.
  induction u; intros acc; cbn [uint_digits Pos.of_uint_acc]; try reflexivity;
    try apply (IHu (10 * acc)%positive);
    match goal with
    | |- uint_digits u ?a = Z.pos (Pos.of_uint_acc u ?b) =>
        replace a with (Z.pos b) by lia; apply IHu
    end.
Qed.

Lemma uint_digits_zero (u : Decimal.uint) :
  uint_digits u 0 = Z.of_N (Pos.of_uint u).
Proof.
  induction u; cbn -[Z.mul Z.add]; try reflexivity; try exact IHu;
    apply (uint_digits_pos u).
Qed.

(** The ten digits. *)
Definition is_decimal (c : ascii) : bool :=
  match digit_value c with
  | Some _ => true
  | None => false
  end.

Lemma decimal_char_facts (c : ascii) :
  is_decimal c = true ->
  is_int_space c = false /\ Ascii.eqb c "_" = false
  /\ Ascii.eqb c "+" = false /\ Ascii.eqb c "-" = false
  /\ is_digit_char c = true /\ is_superscript c = false.
Proof.
  destruct c as [[] [] [] [] [] [] [] []]; intros H;
    try discriminate H; repeat split.
Qed.

Lemma uint_chars (u : Decimal.uint) :
  all_chars is_decimal (NilEmpty.string_of_uint u) = true.
Proof. induction u; simpl; [reflexivity | exact IHu ..]. Qed.

Lemma int_rstrip_decimal (s : string) :
  all_chars is_decimal s = true -> int_rstrip s = s.
Proof.
  induction s as [|c s IH]; simpl; [reflexivity|].
  intros H. apply andb_true_iff in H as [Hc Hs].
  destruct (decimal_char_facts c Hc) as (-> & _). simpl. now rewrite IH.
Qed.

Lemma py_int_decimal (c : ascii) (s : string) :
  all_chars is_decimal (String c s) = true ->
  py_int (String c s) = digits_value (String c s) 0 false.
Proof.
  intros H. unfold py_int.
  pose proof H as H'. simpl in H'. apply andb_true_iff in H' as [Hc Hs].
  destruct (decimal_char_facts c Hc) as (Hsp & _ & Hplus & Hminus & _).
  cbn [int_lstrip]. rewrite Hsp, (int_rstrip_decimal _ H).
  apply Ascii.eqb_neq in Hplus, Hminus.
  destruct c as [[] [] [] [] [] [] [] []]; try reflexivity; contradiction.
Qed.

Lemma py_int_minus_decimal (s : string) :
  all_chars is_decimal s = true ->
  py_int (String "-" s) = option_map Z.opp (digits_value s 0 false).
Proof.
  intros H. unfold py_int. cbn [int_lstrip].
  change (is_int_space "-") with false. cbv iota.
  cbn [int_rstrip]. change (is_int_space "-") with false.
  cbn [andb]. now rewrite (int_rstrip_decimal _ H).
Qed.

Lemma str_pos (p : positive) :
  str (Z.pos p) = NilEmpty.string_of_uint (Pos.to_uint p)
  /\ str (Z.neg p) = String "-" (NilEmpty.string_of_uint (Pos.to_uint p)).
Proof.
  unfold str. simpl. unfold NilZero.string_of_uint.
  pose proof (Unsigned.to_uint_nonnil p) as H.
  destruct (Pos.to_uint p); [contradiction | split; reflexivity ..].
Qed.

Lemma digits_of_pos (p : positive) :
  digits_value (NilEmpty.string_of_uint (Pos.to_uint p)) 0 false = Some (Z.pos p).
Proof.
  rewrite digits_value_uint_start by apply Unsigned.to_uint_nonnil.
  now rewrite uint_digits_zero, Unsigned.of_to.
Qed.

Lemma py_int_str (n : Z) : py_int (str n) = Some n.
Proof.
  destruct n as [|p|p].
  - reflexivity.
  - destruct (str_pos p) as [-> _].
    pose proof (uint_chars (Pos.to_uint p)) as Hc.
    pose proof (Unsigned.to_uint_nonnil p) as Hn.
    pose proof (digits_of_pos p) as Hd.
    destruct (NilEmpty.string_of_uint (Pos.to_uint p)) as [|c s] eqn:E.
    + destruct (Pos.to_uint p); try contradiction; discriminate E.
    + now rewrite (py_int_decimal c s Hc).
  - destruct (str_pos p) as [_ ->].
    rewrite (py_int_minus_decimal _ (uint_chars _)), digits_of_pos. reflexivity.
Qed.

Lemma str_injective (a b : Z) : str a = str b -> a = b.
Proof.
  intros H. pose proof (py_int_str a) as Ha. rewrite H, py_int_str in Ha.
  now injection Ha.
Qed.

Lemma split_on_no_sep (sep : ascii) (s : string) :
  all_chars (fun c => negb (Ascii.eqb c sep)) s = true -> split_on sep s = [s].
Proof.
  induction s as [|c s IH]; simpl; [reflexivity|].
  intros H. apply andb_true_iff in H as [Hc Hs].
  apply negb_true_iff in Hc. rewrite Hc, (IH Hs). reflexivity.
Qed.

Lemma all_chars_weaken (p q : ascii -> bool) (s : string) :
  (forall c, p c = true -> q c = true) ->
  all_chars p s = true -> all_chars q s = true.
Proof.
  intros Hpq. induction s as [|c s IH]; simpl; [reflexivity|].
  intros H. apply andb_true_iff in H as [Hc Hs].
  now rewrite (Hpq c Hc), (IH Hs).
Qed.

Lemma str_no_underscore (n : Z) :
  all_chars (fun c => negb (Ascii.eqb c "_")) (str n) = true.
Proof.
  assert (D : forall u, all_chars (fun c => negb (Ascii.eqb c "_"))
                                  (NilEmpty.string_of_uint u) = true).
  { intros u. apply (all_chars_weaken is_decimal); [|apply uint_chars].
    intros c Hc. destruct (decimal_char_facts c Hc) as (_ & -> & _). reflexivity. }
  destruct n as [|p|p].
  - reflexivity.
  - destruct (str_pos p) as [-> _]. apply D.
  - destruct (str_pos p) as [_ ->]. simpl. apply D.
Qed.

Lemma play_id_of_key_str (n : Z) : play_id_of_key ("play_" ++ str n) = inr n.
Proof.
  unfold play_id_of_key. cbn [append split_on].
  change (Ascii.eqb "p" "_") with false. change (Ascii.eqb "l" "_") with false.
  change (Ascii.eqb "a" "_") with false. change (Ascii.eqb "y" "_") with false.
  change (Ascii.eqb "_" "_") with true. cbv iota.
  rewrite (split_on_no_sep "_" (str n) (str_no_underscore n)).
  cbv iota. now rewrite py_int_str.
Qed.


(** ** [_parse_plays] *)

Lemma snoc_app (a b : string) (c : ascii) :
  (snoc a c ++ b)%string = (a ++ String c b)%string.
Proof. unfold snoc. now rewrite Regex.app_assoc. Qed.

Lemma snoc_assoc (a b : string) (c : ascii) :
  snoc (a ++ b) c = (a ++ snoc b c)%string.
Proof. unfold snoc. now rewrite Regex.app_assoc. Qed.

Lemma all_chars_app (p : ascii -> bool) (a b : string) :
  all_chars p (a ++ b) = all_chars p a && all_chars p b.
Proof.
  induction a as [|c a IH]; simpl; [reflexivity|].
  now rewrite IH, andb_assoc.
Qed.

Lemma all_chars_snoc (p : ascii -> bool) (a : string) (c : ascii) :
  all_chars p a = true -> p c = true -> all_chars p (snoc a c) = true.
Proof.
  intros Ha Hc. unfold snoc. rewrite all_chars_app, Ha. simpl. now rewrite Hc.
Qed.

Lemma is_empty_snoc (a : string) (c : ascii) : is_empty (snoc a c) = false.
Proof. now destruct a. Qed.

Lemma alpha_is_name_char (c : ascii) : is_alpha c = true -> is_name_char c = true.
Proof. intros H. unfold is_name_char. now rewrite H. Qed.

(** What a state of the scan knows of the text read so far. *)
Definition state_ok (st : scan_state) (consumed : string) : Prop :=
  match st with
  | InName run =>
      all_chars is_name_char run = true
      /\ exists pre, consumed = (pre ++ run)%string
  | InCode run code =>
      is_empty run = false
      /\ all_chars is_name_char run = true
      /\ all_chars is_alpha code = true
      /\ exists pre, consumed = (pre ++ run ++ String "(" code)%string
  end.

(** A match of the pattern in a text. *)
Definition good_match (text : string) (m : string * string) : Prop :=
  is_empty (fst m) = false
  /\ all_chars is_name_char (fst m) = true
  /\ is_empty (snd m) = false
  /\ all_chars is_alpha (snd m) = true
  /\ exists pre post,
       text = (pre ++ fst m ++ String "(" (snd m ++ String ")" post))%string.

Lemma state_ok_reset (consumed : string) : state_ok (InName "") consumed.
Proof. split; [reflexivity|]. exists consumed. now rewrite Regex.app_empty_r. Qed.

Lemma scan_sound (s : string) :
  forall st consumed,
    state_ok st consumed ->
    forall m, In m (scan st s) -> good_match (consumed ++ s) m.
Proof.
  induction s as [|c s IH]; intros st consumed Hst m Hin; [destruct Hin|].
  rewrite <- snoc_app. cbn [scan] in Hin.
  destruct st as [run|run code].
  - destruct Hst as (Hrun & pre & ->).
    destruct (is_name_char c) eqn:Ec.
    + apply (IH (InName (snoc run c))); [|exact Hin].
      split; [now apply all_chars_snoc|]. exists pre. apply snoc_assoc.
    + destruct (Ascii.eqb c "(" && negb (is_empty run)) eqn:Ep.
      * apply andb_true_iff in Ep as [Ep Hne].
        apply Ascii.eqb_eq in Ep as ->. apply negb_true_iff in Hne.
        apply (IH (InCode run "")); [|exact Hin].
        split; [exact Hne|]. split; [exact Hrun|]. split; [reflexivity|].
        exists pre. apply snoc_assoc.
      * apply (IH (InName "")); [apply state_ok_reset | exact Hin].
  - destruct Hst as (Hne & Hrun & Hcode & pre & ->).
    destruct (is_alpha c) eqn:Ea.
    + apply (IH (InCode run (snoc code c))); [|exact Hin].
      split; [exact Hne|]. split; [exact Hrun|].
      split; [now apply all_chars_snoc|].
      exists pre. rewrite !snoc_assoc. reflexivity.
    + destruct (Ascii.eqb c ")" && negb (is_empty code)) eqn:Ep.
      * apply andb_true_iff in Ep as [Ep Hcne].
        apply Ascii.eqb_eq in Ep as ->. apply negb_true_iff in Hcne.
        destruct Hin as [<-|Hin].
        -- repeat split; try assumption. exists pre, s. cbn [fst snd].
           rewrite snoc_app, !Regex.app_assoc. reflexivity.
        -- apply (IH (InName "")); [apply state_ok_reset | exact Hin].
      * destruct (is_name_char c) eqn:En.
        -- apply (IH (InName (snoc code c))); [|exact Hin].
           split.
           ++ apply all_chars_snoc; [|exact En].
              apply (all_chars_weaken is_alpha); [apply alpha_is_name_char | exact Hcode].
           ++ exists (pre ++ run ++ "(")%string.
              rewrite !snoc_assoc, !Regex.app_assoc. reflexivity.
        -- destruct (Ascii.eqb c "(" && negb (is_empty code)) eqn:Eq.
           ++ apply andb_true_iff in Eq as [Eq Hcne].
              apply Ascii.eqb_eq in Eq as ->. apply negb_true_iff in Hcne.
              apply (IH (InCode code "")); [|exact Hin].
              split; [exact Hcne|]. split.
              ** apply (all_chars_weaken is_alpha);
                   [apply alpha_is_name_char | exact Hcode].
              ** split; [reflexivity|]. exists (pre ++ run ++ "(")%string.
                 rewrite !snoc_assoc, !Regex.app_assoc. reflexivity.
           ++ apply (IH (InName "")); [apply state_ok_reset | exact Hin].
Qed.

(** X11. Every match [_parse_plays] reports is a match of the pattern in
    the text: the name is a run of letters and white space that is not
    empty, the shorthand is a run of letters that is not empty, and the
    text holds the name, an opening parenthesis, the shorthand and a
    closing parenthesis in a row. *)
Theorem parsed_references_are_in_the_text (text nm code : string) :
  In (nm, code) (_parse_plays text) ->
  is_empty nm = false /\ all_chars is_name_char nm = true
  /\ is_empty code = false /\ all_chars is_alpha code = true
  /\ exists pre post,
       text = (pre ++ nm ++ String "(" (code ++ String ")" post))%string.
Proof.
  intros H. apply (scan_sound text (InName "") "" (state_ok_reset "") (nm, code) H).
Qed.

Lemma parsed_references_are_in_the_text_witness :
  is_empty " Doe" = false /\ all_chars is_name_char " Doe" = true
  /\ is_empty "ABC" = false /\ all_chars is_alpha "ABC" = true
  /\ exists pre post,
       "Foul on Roe(XYZ), Doe(ABC) free throw made"
       = (pre ++ " Doe" ++ String "(" ("ABC" ++ String ")" post))%string.
Proof.
  apply (parsed_references_are_in_the_text
           "Foul on Roe(XYZ), Doe(ABC) free throw made" " Doe" "ABC").
  vm_compute. right. left. reflexivity.
Defined.

Lemma scan_name_run (nm : string) :
  all_chars is_name_char nm = true ->
  forall run rest,
    scan (InName run) (nm ++ rest) = scan (InName (run ++ nm)) rest.
Proof.
  induction nm as [|c nm IH]; intros H run rest.
  - now rewrite Regex.app_empty_r.
  - simpl in H. apply andb_true_iff in H as [Hc Hn].
    cbn [append scan]. rewrite Hc, (IH Hn). now rewrite snoc_app.
Qed.

Lemma scan_code_run (cd : string) :
  all_chars is_alpha cd = true ->
  forall run code rest,
    scan (InCode run code) (cd ++ rest) = scan (InCode run (code ++ cd)) rest.
Proof.
  induction cd as [|c cd IH]; intros H run code rest.
  - now rewrite Regex.app_empty_r.
  - simpl in H. apply andb_true_iff in H as [Hc Hn].
    cbn [append scan]. rewrite Hc, (IH Hn). now rewrite snoc_app.
Qed.

(** A text without an opening parenthesis holds no match. *)
Lemma scan_no_paren (s : string) :
  all_chars (fun c => negb (Ascii.eqb c "(")) s = true ->
  forall run, scan (InName run) s = [].
Proof.
  induction s as [|c s IH]; intros H run; [reflexivity|].
  simpl in H. apply andb_true_iff in H as [Hc Hs].
  apply negb_true_iff in Hc. cbn [scan]. rewrite Hc. cbn [andb].
  destruct (is_name_char c); now apply IH.
Qed.

Lemma first_reference_lemma (nm code rest : string) :
  is_empty nm = false -> all_chars is_name_char nm = true ->
  is_empty code = false -> all_chars is_alpha code = true ->
  _parse_plays (nm ++ String "(" (code ++ String ")" rest))
  = (nm, code) :: _parse_plays rest.
Proof.
  intros Hne Hn Hce Hc. unfold _parse_plays.
  rewrite (scan_name_run nm Hn). cbn [append scan].
  change (is_name_char "(") with false. cbv iota.
  rewrite Hne. cbn [Ascii.eqb Bool.eqb andb negb].
  rewrite (scan_code_run code Hc). cbn [append scan].
  change (is_alpha ")") with false. cbv iota.
  rewrite Hce. cbn [Ascii.eqb Bool.eqb andb negb]. reflexivity.
Qed.

(** X12. A text that begins with a name, an opening parenthesis, a
    shorthand and a closing parenthesis yields that name and shorthand as
    its first match, and the matches of what follows after it. *)
Theorem first_reference_is_parsed (nm code rest : string) :
  is_empty nm = false -> all_chars is_name_char nm = true ->
  is_empty code = false -> all_chars is_alpha code = true ->
  _parse_plays (nm ++ String "(" (code ++ String ")" rest))
  = (nm, code) :: _parse_plays rest.
Proof.
  intros Hne Hn Hce Hc.
  rewrite (first_reference_lemma nm code rest Hne Hn Hce Hc). reflexivity.
Qed.

Lemma first_reference_is_parsed_witness :
  _parse_plays ("Jane Doe" ++ String "(" ("ABC" ++ String ")" " foul, Roe(XYZ) free throw made"))
  = ("Jane Doe", "ABC") :: _parse_plays " foul, Roe(XYZ) free throw made".
Proof.
  apply (first_reference_is_parsed "Jane Doe" "ABC" " foul, Roe(XYZ) free throw made");
    reflexivity.
Defined.

(** ** Looking players up *)

Lemma index_of_name_some (nm : string) (l : list Player) (k : nat) :
  index_of_name nm l = Some k ->
  (exists p, nth_error l k = Some p /\ name p = nm)
  /\ forall j p, (j < k)%nat -> nth_error l j = Some p -> name p <> nm.
Proof.
  revert k. induction l as [|q l IH]; intros k H; simpl in H; [discriminate|].
  destruct (String.eqb (name q) nm) eqn:E.
  - injection H as <-. apply String.eqb_eq in E. split.
    + now exists q.
    + intros j p Hj. lia.
  - destruct (index_of_name nm l) as [k'|]; [|discriminate].
    injection H as <-. destruct (IH k' eq_refl) as [Hp Hbefore]. split.
    + exact Hp.
    + intros [|j] p Hj Hn.
      * simpl in Hn. injection Hn as <-. now apply String.eqb_neq.
      * simpl in Hn. apply (Hbefore j); [lia | exact Hn].
Qed.

Lemma index_of_name_none (nm : string) (l : list Player) :
  index_of_name nm l = None <-> forall p, In p l -> name p <> nm.
Proof.
  induction l as [|q l IH]; simpl.
  - split; [intros _ p [] | reflexivity].
  - destruct (String.eqb (name q) nm) eqn:E.
    + apply String.eqb_eq in E. split; [discriminate|].
      intros H. exfalso. apply (H q); [now left | exact E].
    + apply String.eqb_neq in E.
      destruct (index_of_name nm l) as [k|].
      * split; [discriminate|]. intros H. exfalso.
        destruct IH as [_ IH]. discriminate IH.
        intros p Hp. apply H. now right.
      * split; [|reflexivity]. intros _ p [<-|Hp]; [exact E|].
        destruct IH as [IH _]. now apply IH.
Qed.

(** X13. [get_player_by_name] gives the first player of the name: the
    player it designates has the name and no player before has it; and it
    gives nothing exactly when no player of the scoreboard has the
    name. *)
Theorem get_player_by_name_is_first (sb : Scoreboard) (nm : string) :
  match get_player_by_name sb nm with
  | Some k =>
      (exists p, nth_error (players sb) k = Some p /\ name p = nm)
      /\ forall j p, (j < k)%nat -> nth_error (players sb) j = Some p -> name p <> nm
  | None => forall p, In p (players sb) -> name p <> nm
  end.
Proof.
  unfold get_player_by_name.
  destruct (index_of_name nm (players sb)) as [k|] eqn:E.
  - now apply index_of_name_some.
  - now apply index_of_name_none.
Qed.

(** What [_get_player] leaves alone: everything but the two shorthands. *)
Definition same_but_shorthands (self self' : LiveStreamStats) : Prop :=
  _sports_code self' = _sports_code self
  /\ _game_id self' = _game_id self
  /\ _websocket_message_ext self' = _websocket_message_ext self
  /\ _session_cookie self' = _session_cookie self
  /\ (forall sd,
        team_name (board sd self') = team_name (board sd self)
        /\ team_logo_url (board sd self') = team_logo_url (board sd self)
        /\ players (board sd self') = players (board sd self)).

Lemma same_but_shorthands_refl (self : LiveStreamStats) :
  same_but_shorthands self self.
Proof. repeat split. Qed.

Lemma get_player_same_but_shorthands (self : LiveStreamStats) (nm sh : string) :
  same_but_shorthands self (fst (_get_player self nm sh)).
Proof.
  unfold _get_player.
  destruct (shortname_is (away_scoreboard self) sh);
    [apply same_but_shorthands_refl|].
  destruct (shortname_is (home_scoreboard self) sh);
    [apply same_but_shorthands_refl|].
  destruct (get_player_by_name (away_scoreboard self) nm).
  - repeat split; destruct sd; reflexivity.
  - destruct (get_player_by_name (home_scoreboard self) nm).
    + repeat split; destruct sd; reflexivity.
    + apply same_but_shorthands_refl.
Qed.

Lemma get_player_found_in (self self' : LiveStreamStats) (nm sh : string)
    (sd : side) (k : nat) :
  _get_player self nm sh = (self', Some (sd, k)) ->
  get_player_by_name (board sd self) nm = Some k.
Proof.
  unfold _get_player.
  destruct (shortname_is (away_scoreboard self) sh).
  - destruct (get_player_by_name (away_scoreboard self) nm) eqn:E; [|discriminate].
    intros [= <- <- <-]. exact E.
  - destruct (shortname_is (home_scoreboard self) sh).
    + destruct (get_player_by_name (home_scoreboard self) nm) eqn:E; [|discriminate].
      intros [= <- <- <-]. exact E.
    + destruct (get_player_by_name (away_scoreboard self) nm) eqn:Ea.
      * intros [= <- <- <-]. exact Ea.
      * destruct (get_player_by_name (home_scoreboard self) nm) eqn:Eh; [|discriminate].
        intros [= <- <- <-]. exact Eh.
Qed.

Lemma get_player_unresolved (self self' : LiveStreamStats) (nm sh : string) :
  _get_player self nm sh = (self', None) -> self' = self.
Proof.
  unfold _get_player.
  destruct (shortname_is (away_scoreboard self) sh); [now intros [= <-]|].
  destruct (shortname_is (home_scoreboard self) sh); [now intros [= <-]|].
  destruct (get_player_by_name (away_scoreboard self) nm); [discriminate|].
  destruct (get_player_by_name (home_scoreboard self) nm); [discriminate|].
  now intros [= <-].
Qed.

Lemma get_player_returns_the_named_player_lemma
    (self : LiveStreamStats) (nm sh : string) :
  match snd (_get_player self nm sh) with
  | Some r =>
      exists p, deref (fst (_get_player self nm sh)) r = Some p /\ name p = nm
  | None => fst (_get_player self nm sh) = self
  end.
Proof.
  pose proof (get_player_same_but_shorthands self nm sh) as Hs.
  destruct (_get_player self nm sh) as [self' [[sd k]|]] eqn:E; cbn [fst snd] in *.
  - apply get_player_found_in in E. unfold get_player_by_name in E.
    apply index_of_name_some in E as [[p [Hp Hn]] _].
    exists p. split; [|exact Hn]. unfold deref. cbn [fst snd].
    destruct Hs as (_ & _ & _ & _ & Hb). destruct (Hb sd) as (_ & _ & ->).
    exact Hp.
  - now apply get_player_unresolved in E.
Qed.

(** X14. [_get_player] changes nothing but a shorthand: the rosters, the
    team names and logos and the session fields are as before. The player
    it returns is on the roster it names and has the name asked for; and
    when it returns none, the client is untouched, shorthands too. *)
Theorem get_player_returns_the_named_player
    (self : LiveStreamStats) (nm sh : string) :
  same_but_shorthands self (fst (_get_player self nm sh))
  /\ match snd (_get_player self nm sh) with
     | Some r =>
         exists p, deref (fst (_get_player self nm sh)) r = Some p /\ name p = nm
     | None => fst (_get_player self nm sh) = self
     end.
Proof.
  split; [apply get_player_same_but_shorthands|].
  apply get_player_returns_the_named_player_lemma.
Qed.

(** ** The router *)

(** X15. The play submissions the router hands on for an object are
    the entries of its payload map whose key begins with [play_], no more
    and no fewer, and there are some only for an object on the subscribed
    channel that has no [chart] and no [shot_chart] key of its own. *)
Theorem forwarded_submissions_are_play_entries
    (self : LiveStreamStats) (item : dict) (kv : string * json) :
  In kv (play_submissions self item) <->
  channel_is self item = true
  /\ dict_in "chart" item = false
  /\ dict_in "shot_chart" item = false
  /\ exists data,
       dict_get "data" item = Some (JObj data)
       /\ In kv data /\ startswith "play_" (fst kv) = true.
Proof.
  unfold play_submissions, _is_relevant_message, _extract_play_data, channel_is.
  assert (Hin : dict_in "data" item = true <-> dict_get "data" item <> None).
  { unfold dict_in, dict_get. induction item as [|[k v] item IH]; simpl.
    - split; [discriminate | intros H; now contradiction H].
    - destruct (String.eqb k "data"); simpl; [split; [discriminate | reflexivity]|].
      exact IH. }
  split.
  - destruct (dict_in "channel" item); [|intros []].
    destruct (match dict_get "channel" item with
              | Some v => eq_str v (subscription_of self)
              | None => false
              end); [|intros []].
    destruct (dict_in "data" item); [|intros []].
    destruct (dict_in "chart" item); [intros []|].
    destruct (dict_in "shot_chart" item); [intros []|]. simpl.
    destruct (dict_get "data" item) as [[| | | | |data]|]; try (intros []).
    intros H. apply filter_In in H as [H1 H2].
    repeat split. now exists data.
  - intros (Hc & Hch & Hsh & data & Hd & Hk & Hp).
    assert (Hdata : dict_in "data" item = true).
    { apply Hin. rewrite Hd. discriminate. }
    assert (Hchan : dict_in "channel" item = true).
    { revert Hc. unfold dict_in, dict_get. clear.
      induction item as [|[k v] item IH]; simpl; [discriminate|].
      destruct (String.eqb k "channel"); simpl; [reflexivity | exact IH]. }
    rewrite Hchan, Hc, Hdata, Hch, Hsh, Hd. simpl.
    apply filter_In. now split.
Qed.

Lemma for_each_unit {A : Type} (body : A -> M unit) (l : list A)
    (self : LiveStreamStats) :
  (forall a, In a l -> body a self = (self, inr tt)) ->
  for_each body l self = (self, inr tt).
Proof.
  induction l as [|a l IH]; intros H; simpl; [reflexivity|].
  unfold bind. rewrite (H a) by now left.
  apply IH. intros b Hb. apply H. now right.
Qed.

(** X16. A frame none of whose objects is relevant is dropped in
    silence: whatever the aggregator's entry is, the client is as before
    and nothing is raised. *)
Theorem irrelevant_frame_changes_nothing
    (Raw : Type) (loads : Raw -> option (list dict))
    (h : string -> json -> M unit)
    (raw : Raw) (message : list dict) (self : LiveStreamStats) :
  loads raw = Some message ->
  forallb (fun item => negb (_is_relevant_message self item)) message = true ->
  process_raw Raw loads h raw self = (self, inr tt).
Proof.
  intros Hl Hm. unfold process_raw, bind, lift. rewrite Hl.
  apply for_each_unit. intros item Hin.
  rewrite forallb_forall in Hm. specialize (Hm item Hin).
  rewrite process_item_unfold.
  apply negb_true_iff in Hm. now rewrite Hm.
Qed.

Lemma irrelevant_frame_changes_nothing_witness :
  process_raw (list dict) (fun m => Some m) idle_process_play_data
    [other_channel_item; other_channel_item] sample_client
  = (sample_client, inr tt).
Proof.
  apply (irrelevant_frame_changes_nothing (list dict) (fun m => Some m)
           idle_process_play_data [other_channel_item; other_channel_item]
           [other_channel_item; other_channel_item] sample_client);
    reflexivity.
Defined.

(** ** Processing play data *)

Lemma grown_refl (p : Player) : grown p p.
Proof.
  unfold grown. do 6 (split; [reflexivity|]). split; [intros g; lia|].
  exists []. now rewrite app_nil_r.
Qed.

Lemma grown_trans (p q r : Player) : grown p q -> grown q r -> grown p r.
Proof.
  intros (A1 & A2 & A3 & A4 & A5 & A6 & A7 & a & A8)
         (B1 & B2 & B3 & B4 & B5 & B6 & B7 & b & B8).
  unfold grown. do 6 (split; [congruence|]). split.
  - intros g. specialize (A7 g). specialize (B7 g). lia.
  - exists (a ++ b). now rewrite B8, A8, <- List.app_assoc.
Qed.

Lemma add_play_grown (p : Player) (i : Z) (t c : string) (n : Z) :
  grown p (player_of (add_play p i t c n)).
Proof.
  change (player_of (add_play p i t c n)) with (apply_play p (i, t, c, n)).
  destruct (apply_play_cases p i t c n) as [[_ ->] | (_ & Hp & Hi & Hg)];
    [apply grown_refl|].
  unfold identity_of in Hi. injection Hi as H1 H2 H3 H4 H5 H6.
  unfold grown. do 6 (split; [assumption|]). split.
  - intros g. rewrite Hg. pose proof (bump_range g t). lia.
  - now exists [mkPlay i t c n].
Qed.

(** A client has only grown: the session fields, the team names and the
    logos are as before and, place by place, every player of either
    roster has only grown. The shorthands are free. *)
Definition client_grown (self self' : LiveStreamStats) : Prop :=
  _sports_code self' = _sports_code self
  /\ _game_id self' = _game_id self
  /\ _websocket_message_ext self' = _websocket_message_ext self
  /\ _session_cookie self' = _session_cookie self
  /\ (forall sd,
        team_name (board sd self') = team_name (board sd self)
        /\ team_logo_url (board sd self') = team_logo_url (board sd self)
        /\ Forall2 grown (players (board sd self)) (players (board sd self'))).

Lemma Forall2_grown_refl (l : list Player) : Forall2 grown l l.
Proof. induction l; constructor; [apply grown_refl | assumption]. Qed.

Lemma Forall2_grown_trans (a b c : list Player) :
  Forall2 grown a b -> Forall2 grown b c -> Forall2 grown a c.
Proof.
  intros H. revert c. induction H as [|x y a b Hxy Hab IH]; intros c Hc.
  - inversion Hc. constructor.
  - inversion Hc as [|? z ? c' Hyz Hbc]; subst.
    constructor; [now apply (grown_trans x y z) | now apply IH].
Qed.

Lemma client_grown_refl (self : LiveStreamStats) : client_grown self self.
Proof. repeat split; apply Forall2_grown_refl. Qed.

Lemma client_grown_trans (a b c : LiveStreamStats) :
  client_grown a b -> client_grown b c -> client_grown a c.
Proof.
  intros (A1 & A2 & A3 & A4 & A5) (B1 & B2 & B3 & B4 & B5).
  repeat split; try congruence;
    destruct (A5 sd) as (X1 & X2 & X3); destruct (B5 sd) as (Y1 & Y2 & Y3);
    try congruence.
  now apply (Forall2_grown_trans _ (players (board sd b))).
Qed.

Lemma same_but_shorthands_grown (self self' : LiveStreamStats) :
  same_but_shorthands self self' -> client_grown self self'.
Proof.
  intros (A1 & A2 & A3 & A4 & A5). repeat split; try assumption;
    destruct (A5 sd) as (X1 & X2 & X3); try assumption.
  rewrite X3. apply Forall2_grown_refl.
Qed.

Lemma replace_nth_grown (l : list Player) (k : nat) (p p' : Player) :
  nth_error l k = Some p -> grown p p' ->
  Forall2 grown l (replace_nth k p' l).
Proof.
  revert k. induction l as [|q l IH]; intros [|k] H Hg; simpl in *;
    try discriminate.
  - injection H as ->. constructor; [exact Hg | apply Forall2_grown_refl].
  - constructor; [apply grown_refl | now apply IH].
Qed.

Lemma store_grown (self : LiveStreamStats) (r : player_ref) (p p' : Player) :
  deref self r = Some p -> grown p p' -> client_grown self (store self r p').
Proof.
  destruct r as [sd k]. unfold deref, store. cbn [fst snd]. intros H Hg.
  destruct sd; cbn [board] in H; repeat split;
    destruct sd; cbn [board]; try reflexivity;
    try apply Forall2_grown_refl; now apply (replace_nth_grown _ k p).
Qed.

Lemma apply_reference_grown (i : Z) (t c : string) (n : Z)
    (self : LiveStreamStats) (out : list string) (m : string * string) :
  client_grown self (fst (apply_reference i t c n (self, out) m)).
Proof.
  unfold apply_reference.
  pose proof (get_player_same_but_shorthands self (strip (fst m)) (snd m)) as Hs.
  apply same_but_shorthands_grown in Hs.
  destruct (_get_player self (strip (fst m)) (snd m)) as [self1 [r|]];
    cbn [fst] in *; [|exact Hs].
  destruct (deref self1 r) as [p|] eqn:E; cbn [fst]; [|exact Hs].
  apply (client_grown_trans _ self1); [exact Hs|].
  apply (store_grown self1 r p); [exact E | apply add_play_grown].
Qed.

Lemma fold_grown {A : Type} (step : LiveStreamStats * list string -> A ->
                                    LiveStreamStats * list string)
    (l : list A) :
  (forall self out a, client_grown self (fst (step (self, out) a))) ->
  forall self out, client_grown self (fst (fold_left step l (self, out))).
Proof.
  intros Hstep. induction l as [|a l IH]; intros self out; simpl.
  - apply client_grown_refl.
  - destruct (step (self, out) a) as [self1 out1] eqn:E.
    apply (client_grown_trans _ self1); [|apply IH].
    specialize (Hstep self out a). now rewrite E in Hstep.
Qed.

(** X17. Whatever play data [_process_play_data] is given, it only makes
    the client grow: it never adds, drops, renames or reorders a player;
    place by place every player keeps name, number, position, flags and
    minutes, no counter of any player gets lower, and the plays a player
    had stay at the head of the sequence. Team names, logos and the
    session fields are untouched. *)
Theorem processing_only_grows (play_key : string) (play_info : json)
    (self self' : LiveStreamStats) (out : list string) :
  _process_play_data play_key play_info self = Some (inr (self', out)) ->
  client_grown self self'.
Proof.
  unfold _process_play_data.
  destruct (play_id_of_key play_key) as [e|i]; [discriminate|].
  destruct play_info as [| | | | |d]; try discriminate.
  destruct (dict_get_default _ d (JStr "")) as [| | |text| |]; try discriminate.
  destruct (dict_get_default _ d (JStr "")) as [| | |c| |]; try discriminate.
  destruct (dict_get_default _ d (JNum 0)) as [| |n| | |]; try discriminate.
  intros [= H].
  assert (G : client_grown self
                (fst (fold_left (apply_fragment i c n) (split_on "," text) (self, [])))).
  { apply fold_grown. intros s o t. unfold apply_fragment.
    apply fold_grown. intros s' o' m. apply apply_reference_grown. }
  now rewrite H in G.
Qed.

Lemma processing_only_grows_witness :
  exists self' out,
    _process_play_data "play_7"
      (JObj [("play_text_7", JStr "Doe(ABC) Layup made,Roe(XYZ) foul");
             ("clock_7", JStr "10:00"); ("period_7", JNum 1)])
      sample_client
    = Some (inr (self', out))
    /\ client_grown sample_client self'.
Proof.
  eexists. eexists. split.
  - vm_compute. reflexivity.
  - apply (processing_only_grows "play_7"
             (JObj [("play_text_7", JStr "Doe(ABC) Layup made,Roe(XYZ) foul");
                    ("clock_7", JStr "10:00"); ("period_7", JNum 1)])
             sample_client _ []).
    vm_compute. reflexivity.
Defined.

Lemma split_on_all_chars (p : ascii -> bool) (sep : ascii) (s : string) :
  all_chars p s = true ->
  Forall (fun piece => all_chars p piece = true) (split_on sep s).
Proof.
  induction s as [|c s IH]; intros H; simpl.
  - repeat constructor.
  - simpl in H. apply andb_true_iff in H as [Hc Hs]. specialize (IH Hs).
    destruct (Ascii.eqb c sep); [constructor; [reflexivity | exact IH]|].
    destruct (split_on sep s) as [|piece pieces].
    + repeat constructor. simpl. now rewrite Hc.
    + inversion IH as [|? ? Hp Hps]; subst.
      constructor; [|exact Hps]. simpl. now rewrite Hc, Hp.
Qed.

Lemma fragments_without_reference (i : Z) (c : string) (n : Z)
    (pieces : list string) (acc : LiveStreamStats * list string) :
  Forall (fun piece => all_chars (fun ch => negb (Ascii.eqb ch "(")) piece = true)
         pieces ->
  fold_left (apply_fragment i c n) pieces acc = acc.
Proof.
  induction 1 as [|piece pieces Hp Hps IH]; simpl; [reflexivity|].
  unfold apply_fragment at 2. unfold _parse_plays.
  rewrite (scan_no_paren piece Hp). exact IH.
Qed.

(** X18. A play whose text holds no opening parenthesis names no player
    and changes nothing: the client is as before and nothing is printed.
    So it is with a play whose text is missing from the payload, the
    text then being empty. *)
Theorem text_without_reference_changes_nothing
    (n : Z) (d : dict) (text a_clock : string) (a_period : Z)
    (self : LiveStreamStats) :
  dict_get_default ("play_text_" ++ str n) d (JStr "") = JStr text ->
  dict_get_default ("clock_" ++ str n) d (JStr "") = JStr a_clock ->
  dict_get_default ("period_" ++ str n) d (JNum 0) = JNum a_period ->
  all_chars (fun c => negb (Ascii.eqb c "(")) text = true ->
  _process_play_data ("play_" ++ str n) (JObj d) self = Some (inr (self, [])).
Proof.
  intros Ht Hc Hp Hno. unfold _process_play_data.
  rewrite play_id_of_key_str, Ht, Hc, Hp.
  rewrite fragments_without_reference; [reflexivity|].
  now apply split_on_all_chars.
Qed.

Lemma text_without_reference_changes_nothing_witness :
  _process_play_data ("play_" ++ str 12)
    (JObj [("play_text_12", JStr "Official timeout, end of period");
           ("period_12", JNum 2)])
    sample_client
  = Some (inr (sample_client, [])).
Proof.
  apply (text_without_reference_changes_nothing 12
           [("play_text_12", JStr "Official timeout, end of period");
            ("period_12", JNum 2)]
           "Official timeout, end of period" "" 2 sample_client);
    reflexivity.
Defined.

Lemma name_char_plain (c : ascii) :
  is_name_char c = true ->
  Ascii.eqb c "," = false /\ Ascii.eqb c "(" = false.
Proof.
  destruct c as [[] [] [] [] [] [] [] []]; intros H;
    try discriminate H; split; reflexivity.
Qed.

Lemma no_comma_in_name (s : string) :
  all_chars is_name_char s = true ->
  all_chars (fun c => negb (Ascii.eqb c ",")) s = true.
Proof.
  apply all_chars_weaken. intros c Hc.
  destruct (name_char_plain c Hc) as [-> _]. reflexivity.
Qed.

(** X19. A play whose text is one reference, a name without white space
    at its ends, a shorthand in parentheses and then words without comma
    or opening parenthesis, is applied once, to the player [_get_player]
    returns for the name and the shorthand: that player is given the play
    with the whole text, and what [add_play] prints is what is printed. *)
Theorem single_reference_reaches_the_player
    (n : Z) (d : dict) (nm code rest a_clock : string) (a_period : Z)
    (self self1 : LiveStreamStats) (r : player_ref) :
  let text := (nm ++ String "(" (code ++ String ")" rest))%string in
  dict_get_default ("play_text_" ++ str n) d (JStr "") = JStr text ->
  dict_get_default ("clock_" ++ str n) d (JStr "") = JStr a_clock ->
  dict_get_default ("period_" ++ str n) d (JNum 0) = JNum a_period ->
  is_empty nm = false -> all_chars is_name_char nm = true -> strip nm = nm ->
  is_empty code = false -> all_chars is_alpha code = true ->
  all_chars (fun c => negb (Ascii.eqb c "(") && negb (Ascii.eqb c ",")) rest = true ->
  _get_player self nm code = (self1, Some r) ->
  exists p,
    deref self1 r = Some p /\ name p = nm
    /\ _process_play_data ("play_" ++ str n) (JObj d) self
       = Some (inr (store self1 r (player_of (add_play p n text a_clock a_period)),
                    output_of (add_play p n text a_clock a_period))).
Proof.
  intros text Ht Hc Hp Hne Hn Hstrip Hce Hcode Hrest Hget.
  pose proof (get_player_returns_the_named_player_lemma self nm code) as Hx.
  rewrite Hget in Hx. cbn [fst snd] in Hx. destruct Hx as (p & Hd & Hname).
  exists p. split; [exact Hd|]. split; [exact Hname|].
  unfold _process_play_data. rewrite play_id_of_key_str, Ht, Hc, Hp.
  assert (Hcomma : all_chars (fun c => negb (Ascii.eqb c ",")) text = true).
  { unfold text. rewrite all_chars_app, (no_comma_in_name nm Hn).
    cbn [all_chars andb]. change (negb (Ascii.eqb "(" ",")) with true.
    rewrite all_chars_app.
    rewrite (no_comma_in_name code
               (all_chars_weaken is_alpha is_name_char code alpha_is_name_char Hcode)).
    cbn [all_chars andb]. change (negb (Ascii.eqb ")" ",")) with true. cbn [andb].
    apply (all_chars_weaken
             (fun c => negb (Ascii.eqb c "(") && negb (Ascii.eqb c ","))); [|exact Hrest].
    intros c H. now apply andb_true_iff in H as [_ H]. }
  rewrite (split_on_no_sep "," text Hcomma). cbn [fold_left].
  unfold apply_fragment. unfold text at 2.
  rewrite (first_reference_lemma nm code rest Hne Hn Hce Hcode).
  assert (Hnone : _parse_plays rest = []).
  { unfold _parse_plays. apply scan_no_paren.
    apply (all_chars_weaken
             (fun c => negb (Ascii.eqb c "(") && negb (Ascii.eqb c ","))); [|exact Hrest].
    intros c H. now apply andb_true_iff in H as [H _]. }
  rewrite Hnone. cbn [fold_left]. unfold apply_reference. cbn [fst snd].
  rewrite Hstrip, Hget, Hd. reflexivity.
Qed.

Lemma single_reference_reaches_the_player_witness :
  exists p,
    deref (fst (_get_player sample_client "Doe" "ABC")) (Away, 0%nat) = Some p
    /\ name p = "Doe"
    /\ _process_play_data ("play_" ++ str 7)
         (JObj [("play_text_7", JStr "Doe(ABC) Layup made");
                ("clock_7", JStr "10:00"); ("period_7", JNum 1)])
         sample_client
       = Some (inr (store (fst (_get_player sample_client "Doe" "ABC")) (Away, 0%nat)
                      (player_of (add_play p 7 "Doe(ABC) Layup made" "10:00" 1)),
                    output_of (add_play p 7 "Doe(ABC) Layup made" "10:00" 1))).
Proof.
  apply (single_reference_reaches_the_player 7
           [("play_text_7", JStr "Doe(ABC) Layup made");
            ("clock_7", JStr "10:00"); ("period_7", JNum 1)]
           "Doe" "ABC" " Layup made" "10:00" 1 sample_client
           (fst (_get_player sample_client "Doe" "ABC")) (Away, 0%nat));
    reflexivity.
Defined.

(** ** Message identifiers, class by class *)

Lemma variant_eqb_eq (a b : variant) : variant_eqb a b = true <-> a = b.
Proof. destruct a, b; simpl; split; congruence. Qed.

Lemma variant_eqb_refl (a : variant) : variant_eqb a a = true.
Proof. now destruct a. Qed.

Lemma ids_of_class_from (cls : variant) (l seen : list variant) :
  map snd (filter (fun p => variant_eqb cls (fst p))
                  (combine l (ids_by_class seen l)))
  = map (fun k => str (count_class cls seen + Z.of_nat k))
        (seq 0 (length (filter (variant_eqb cls) l))).
Proof.
  revert seen. induction l as [|c l IH]; intros seen; [reflexivity|].
  cbn [ids_by_class combine filter fst].
  destruct (variant_eqb cls c) eqn:E.
  - apply variant_eqb_eq in E as <-.
    cbn [map snd length seq]. rewrite Z.add_0_r. f_equal.
    rewrite IH, <- seq_shift, map_map. apply map_ext. intros k.
    rewrite count_class_snoc, variant_eqb_refl. f_equal. lia.
  - rewrite IH. apply map_ext. intros k.
    rewrite count_class_snoc, E. f_equal. lia.
Qed.

Lemma NoDup_map_str (l : list nat) :
  NoDup l -> NoDup (map (fun k => str (Z.of_nat k)) l).
Proof.
  induction 1 as [|k l Hk Hl IH]; simpl; constructor; [|exact IH].
  rewrite in_map_iff. intros (j & Hj & Hin).
  apply str_injective in Hj. apply Nat2Z.inj in Hj. now subst.
Qed.

(** X20. Within one class the identifiers count up from "0": from the
    import on, the messages of a class carry, in the order they are
    built, the decimal texts of 0, 1, 2 and so on, whatever messages of
    the other classes are built between them; no two messages of one
    class share an identifier. *)
Theorem ids_count_up_within_a_class (cls : variant) (l : list variant) :
  ids_of_class cls l
  = map (fun k => str (Z.of_nat k)) (seq 0 (length (filter (variant_eqb cls) l)))
  /\ NoDup (ids_of_class cls l).
Proof.
  assert (E : ids_of_class cls l
              = map (fun k => str (Z.of_nat k))
                    (seq 0 (length (filter (variant_eqb cls) l)))).
  { unfold ids_of_class. rewrite ids_observed_initial, ids_of_class_from.
    apply map_ext. intros k. reflexivity. }
  split; [exact E|]. rewrite E. apply NoDup_map_str, seq_NoDup.
Qed.

Lemma attrs_after_counters (l : list variant) :
  forall ns,
    BaseMessage_id_counter (attrs_after ns l) = BaseMessage_id_counter ns
    /\ forall cls, read_id_counter (attrs_after ns l) cls
                   = read_id_counter ns cls + count_class cls l.
Proof.
  induction l as [|c l IH]; intros ns.
  - split; [reflexivity|]. intros cls. unfold count_class. simpl. lia.
  - change (attrs_after ns (c :: l)) with (attrs_after (fst (construct ns c)) l).
    destruct (IH (fst (construct ns c))) as [Hb Hr].
    destruct (construct_id ns c) as [_ Hst]. rewrite Hst in *. split.
    + rewrite Hb. reflexivity.
    + intros cls. rewrite Hr, read_write_id_counter.
      unfold count_class. cbn [filter].
      destruct (variant_eqb cls c) eqn:E.
      * apply variant_eqb_eq in E as ->. cbn [length]. lia.
      * lia.
Qed.

(** X21. No construction of a message moves the counter of
    [BaseMessage]: after any run of constructions it is the 0 of the
    class body, and what a class reads as its counter is the number of
    messages of that class built so far. *)
Theorem base_counter_is_never_advanced (l : list variant) :
  BaseMessage_id_counter (attrs_after initial_attrs l) = 0
  /\ forall cls, read_id_counter (attrs_after initial_attrs l) cls = count_class cls l.
Proof.
  destruct (attrs_after_counters l initial_attrs) as [Hb Hr]. split.
  - exact Hb.
  - intros cls. rewrite Hr. reflexivity.
Qed.

(** ** The messages of a connection *)





(** ** The session tokens *)

Lemma strip_prefix_app (p t : string) : strip_prefix p (p ++ t) = Some t.
Proof.
  induction p as [|c p IH]; simpl; [reflexivity|].
  now rewrite Ascii.eqb_refl.
Qed.

Lemma until_semicolon_app (v r : string) :
  all_chars (fun c => negb (Ascii.eqb c ";")) v = true ->
  until_semicolon (v ++ String ";" r) = Some (v, r).
Proof.
  induction v as [|c v IH]; intros H; simpl.
  - reflexivity.
  - simpl in H. apply andb_true_iff in H as [Hc Hv].
    apply negb_true_iff in Hc. now rewrite Hc, (IH Hv).
Qed.

Lemma value_semicolon_app (v r : string) :
  is_empty v = false ->
  all_chars (fun c => negb (Ascii.eqb c ";")) v = true ->
  value_semicolon (v ++ String ";" r) = Some (v, r).
Proof.
  intros Hne H. unfold value_semicolon. rewrite (until_semicolon_app v r H).
  destruct v; [discriminate | reflexivity].
Qed.

Lemma until_semicolon_value (s v r : string) :
  until_semicolon s = Some (v, r) ->
  all_chars (fun c => negb (Ascii.eqb c ";")) v = true.
Proof.
  revert v r. induction s as [|c s IH]; intros v r H; simpl in H; [discriminate|].
  destruct (Ascii.eqb c ";") eqn:E.
  - now injection H as <- <-.
  - destruct (until_semicolon s) as [[v' r']|]; [|discriminate].
    injection H as <- <-. simpl. rewrite E. simpl. now apply (IH v' r').
Qed.

Lemma value_semicolon_value (s v r : string) :
  value_semicolon s = Some (v, r) ->
  is_empty v = false /\ all_chars (fun c => negb (Ascii.eqb c ";")) v = true.
Proof.
  unfold value_semicolon. intros H.
  destruct (until_semicolon s) as [[[|c v'] r']|] eqn:E; try discriminate.
  injection H as <- <-. split; [reflexivity|].
  now apply (until_semicolon_value s _ r').
Qed.

Lemma session_group_skip (mid t : string) :
  all_chars (fun c => negb (Ascii.eqb c "_") && negb (Ascii.eqb c newline)) mid = true ->
  session_group (mid ++ t) = session_group t.
Proof.
  induction mid as [|c mid IH]; intros H; [reflexivity|].
  simpl in H. apply andb_true_iff in H as [Hc Hm].
  apply andb_true_iff in Hc as [Hu Hn]. apply negb_true_iff in Hu, Hn.
  cbn [append session_group strip_prefix]. rewrite Ascii.eqb_sym, Hu, Hn.
  now apply IH.
Qed.

Lemma session_group_here (s tail : string) :
  is_empty s = false ->
  all_chars (fun c => negb (Ascii.eqb c ";")) s = true ->
  session_group ("_stats_session=" ++ s ++ String ";" tail) = Some s.
Proof.
  intros Hne Hs.
  assert (E : strip_prefix "_stats_session="
                ("_stats_session=" ++ s ++ String ";" tail)
              = Some (s ++ String ";" tail)%string) by apply strip_prefix_app.
  destruct ("_stats_session=" ++ s ++ String ";" tail)%string as [|c t] eqn:Et;
    [discriminate|].
  cbn [session_group]. rewrite E, (value_semicolon_app s tail Hne Hs). reflexivity.
Qed.

Lemma session_group_value (t v : string) :
  session_group t = Some v ->
  is_empty v = false /\ all_chars (fun c => negb (Ascii.eqb c ";")) v = true.
Proof.
  induction t as [|c t IH]; intros H.
  - simpl in H. discriminate.
  - cbn [session_group] in H.
    destruct (strip_prefix "_stats_session=" (String c t)) as [u|].
    + destruct (value_semicolon u) as [[v' r]|] eqn:E.
      * injection H as <-. now apply (value_semicolon_value u v' r).
      * destruct (Ascii.eqb c newline); [discriminate | now apply IH].
    + destruct (Ascii.eqb c newline); [discriminate | now apply IH].
Qed.

(** X23. A header that begins with the user token and holds the session
    token further on gives both back: from
    [livestream_user_id=u;...  _stats_session=s;...], with [u] and [s] not
    empty and free of semicolons and nothing but text without underscore
    or newline between the two cookies, [__init__] builds the session
    cookie [livestream_user_id=u; _stats_session=s] and puts [u] in the
    message extension. *)
Theorem tokens_are_read_back
    (get_scoreboards : string -> exn + (Scoreboard * Scoreboard))
    (sports_code : string) (game_id : Z) (r : Response)
    (u mid s tail : string) (away home : Scoreboard) :
  header r "Set-Cookie"
  = Some ("livestream_user_id=" ++ u ++ String ";"
            (mid ++ "_stats_session=" ++ s ++ String ";" tail))%string ->
  get_scoreboards (text r) = inr (away, home) ->
  is_empty u = false -> all_chars (fun c => negb (Ascii.eqb c ";")) u = true ->
  is_empty s = false -> all_chars (fun c => negb (Ascii.eqb c ";")) s = true ->
  all_chars (fun c => negb (Ascii.eqb c "_") && negb (Ascii.eqb c newline)) mid = true ->
  __init__ get_scoreboards sports_code game_id (Some r)
  = inr (mkLiveStreamStats sports_code game_id away home
           [("livestream_token", ""); ("livestream_user_id", u)]
           ("livestream_user_id=" ++ u ++ "; _stats_session=" ++ s)%string).
Proof.
  intros Hh Hg Hune Hu Hsne Hs Hmid. unfold __init__. rewrite Hh.
  unfold user_id_group. rewrite strip_prefix_app.
  rewrite (value_semicolon_app u _ Hune Hu).
  rewrite (session_group_skip mid _ Hmid), (session_group_here s tail Hsne Hs).
  rewrite Hg. reflexivity.
Qed.

Lemma tokens_are_read_back_witness :
  __init__ sample_get_scoreboards "MBB" 1
    (Some (mkResponse
             [("Set-Cookie",
               "livestream_user_id=u1; path=/, _stats_session=s1; path=/; HttpOnly")]
             "<html></html>"))
  = inr (mkLiveStreamStats "MBB" 1
           (away_scoreboard sample_client) (home_scoreboard sample_client)
           [("livestream_token", ""); ("livestream_user_id", "u1")]
           "livestream_user_id=u1; _stats_session=s1").
Proof.
  apply (tokens_are_read_back sample_get_scoreboards "MBB" 1
           (mkResponse
              [("Set-Cookie",
                "livestream_user_id=u1; path=/, _stats_session=s1; path=/; HttpOnly")]
              "<html></html>")
           "u1" " path=/, " "s1" " path=/; HttpOnly");
    reflexivity.
Defined.

(** X24. Whatever the header holds, when [__init__] succeeds the session
    cookie is [livestream_user_id=], a user token, [; _stats_session=] and
    a session token, neither token holds a semicolon, and the user token
    is the one put in the message extension. *)
Theorem session_cookie_shape
    (get_scoreboards : string -> exn + (Scoreboard * Scoreboard))
    (sports_code : string) (game_id : Z) (response : option Response)
    (self : LiveStreamStats) :
  __init__ get_scoreboards sports_code game_id response = inr self ->
  exists user session,
    _session_cookie self
    = ("livestream_user_id=" ++ user ++ "; _stats_session=" ++ session)%string
    /\ _websocket_message_ext self
       = [("livestream_token", ""); ("livestream_user_id", user)]
    /\ all_chars (fun c => negb (Ascii.eqb c ";")) user = true
    /\ all_chars (fun c => negb (Ascii.eqb c ";")) session = true
    /\ _sports_code self = sports_code /\ _game_id self = game_id.
Proof.
  unfold __init__. destruct response as [r|]; [|discriminate].
  destruct (header r "Set-Cookie") as [h|]; [|discriminate].
  destruct (user_id_group h) as [g1 rest] eqn:Eg.
  destruct (get_scoreboards (text r)) as [e|[away home]]; [discriminate|].
  intros [= <-]. cbn [_session_cookie _websocket_message_ext _sports_code _game_id].
  exists (group_or_empty g1), (group_or_empty (session_group rest)).
  split; [reflexivity|]. split; [reflexivity|]. split; [|split; [|split; reflexivity]].
  - destruct g1 as [v|]; [|reflexivity]. simpl.
    unfold user_id_group in Eg.
    destruct (strip_prefix "livestream_user_id=" h) as [t|]; [|discriminate].
    destruct (value_semicolon t) as [[v' r']|] eqn:Ev; [|discriminate].
    injection Eg as <- <-. now apply (value_semicolon_value t v' r').
  - destruct (session_group rest) as [v|] eqn:Es; [|reflexivity]. simpl.
    now apply (session_group_value rest v).
Qed.

Lemma session_cookie_shape_witness :
  exists user session,
    _session_cookie sample_client
    = ("livestream_user_id=" ++ user ++ "; _stats_session=" ++ session)%string
    /\ _websocket_message_ext sample_client
       = [("livestream_token", ""); ("livestream_user_id", user)]
    /\ all_chars (fun c => negb (Ascii.eqb c ";")) user = true
    /\ all_chars (fun c => negb (Ascii.eqb c ";")) session = true
    /\ _sports_code sample_client = "MBB" /\ _game_id sample_client = 1.
Proof.
  apply (session_cookie_shape sample_get_scoreboards "MBB" 1
           (Some (mkResponse
                    [("Set-Cookie", "livestream_user_id=u1;_stats_session=s1;")] ""))).
  reflexivity.
Defined.

(** ** Rows of the box score: [normalize_player_stats] and the headers *)

Lemma dict_set_fresh (key : string) (v : json) (d : dict) :
  ~ In key (map fst d) -> dict_set key v d = d ++ [(key, v)].
Proof.
  induction d as [|[k w] d IH]; intros H; simpl; [reflexivity|].
  destruct (String.eqb k key) eqn:E.
  - apply String.eqb_eq in E. exfalso. apply H. now left.
  - rewrite IH; [reflexivity|]. intros Hin. apply H. now right.
Qed.

Lemma normalize_value_normal (v v' : json) :
  normalize_value v = inr v' -> normal_value v' = true.
Proof.
  destruct v as [| | |s| |]; simpl; try (intros [= <-]; reflexivity).
  destruct (isdigit s) eqn:Ed.
  - destruct (py_int s); [intros [= <-]; reflexivity | discriminate].
  - destruct (String.eqb s "") eqn:E1; [intros [= <-]; reflexivity|].
    destruct (String.eqb s "*") eqn:E2; [intros [= <-]; reflexivity|].
    intros [= <-]. simpl. now rewrite Ed, E1, E2.
Qed.

Lemma normalize_value_fixed (v : json) :
  normal_value v = true -> normalize_value v = inr v.
Proof.
  destruct v as [| | |s| |]; simpl; try reflexivity.
  intros H. apply andb_true_iff in H as [H H3]. apply andb_true_iff in H as [H1 H2].
  apply negb_true_iff in H1, H2, H3. now rewrite H1, H2, H3.
Qed.

(** The entry [normalize_player_stats] stores for an entry. *)
Definition normalized_entry (kv kv' : string * json) : Prop :=
  fst kv' = fst kv /\ normalize_value (snd kv) = inr (snd kv').

Lemma normalize_from_spec (items : dict) :
  forall acc res,
    NoDup (map fst items) ->
    (forall k, In k (map fst items) -> ~ In k (map fst acc)) ->
    normalize_from items acc = inr res ->
    exists out, res = acc ++ out /\ Forall2 normalized_entry items out.
Proof.
  induction items as [|[k v] items IH]; intros acc res Hnd Hfresh H; simpl in H.
  - injection H as <-. exists []. split; [now rewrite app_nil_r | constructor].
  - destruct (normalize_value v) as [e|v'] eqn:Ev; [discriminate|].
    inversion Hnd as [|? ? Hk Hnd']; subst.
    rewrite dict_set_fresh in H by (apply Hfresh; now left).
    apply IH in H as (out & -> & Hout); [|exact Hnd'|].
    + exists ((k, v') :: out). split; [now rewrite <- List.app_assoc|].
      constructor; [now split | exact Hout].
    + intros k' Hk' Hin. rewrite map_app, in_app_iff in Hin.
      destruct Hin as [Hin|[<-|[]]]; [|contradiction].
      apply (Hfresh k'); [now right | exact Hin].
Qed.

Lemma normalize_from_fixed (items : dict) :
  forall acc,
    NoDup (map fst items) ->
    (forall k, In k (map fst items) -> ~ In k (map fst acc)) ->
    Forall (fun kv => normal_value (snd kv) = true) items ->
    normalize_from items acc = inr (acc ++ items).
Proof.
  induction items as [|[k v] items IH]; intros acc Hnd Hfresh Hn; simpl.
  - now rewrite app_nil_r.
  - inversion Hn as [|? ? Hv Hn']; subst. inversion Hnd as [|? ? Hk Hnd']; subst.
    rewrite (normalize_value_fixed v Hv).
    rewrite dict_set_fresh by (apply Hfresh; now left).
    rewrite IH; [now rewrite <- List.app_assoc | exact Hnd' | | exact Hn'].
    intros k' Hk' Hin. rewrite map_app, in_app_iff in Hin.
    destruct Hin as [Hin|[<-|[]]]; [|contradiction].
    apply (Hfresh k'); [now right | exact Hin].
Qed.

Lemma normalized_keys (items out : dict) :
  Forall2 normalized_entry items out ->
  map fst out = map fst items
  /\ Forall (fun kv => normal_value (snd kv) = true) out.
Proof.
  induction 1 as [|kv kv' items out [Hk Hv] H [IHk IHn]]; simpl.
  - split; [reflexivity | constructor].
  - split; [now rewrite Hk, IHk|].
    constructor; [now apply (normalize_value_normal (snd kv)) | exact IHn].
Qed.

(** X25. When [normalize_player_stats] returns, the row has the keys it
    had, in the same order; no value left is a text that is empty, a
    star or all digits; and normalizing the row once more changes
    nothing. *)
Theorem normalize_is_idempotent (player_data normalized : dict) :
  NoDup (map fst player_data) ->
  normalize_player_stats player_data = inr normalized ->
  map fst normalized = map fst player_data
  /\ Forall (fun kv => normal_value (snd kv) = true) normalized
  /\ normalize_player_stats normalized = inr normalized.
Proof.
  intros Hnd H. unfold normalize_player_stats in *.
  apply normalize_from_spec in H as (out & -> & Hout);
    [|exact Hnd | intros k _ []].
  simpl. destruct (normalized_keys _ _ Hout) as [Hk Hn].
  split; [exact Hk|]. split; [exact Hn|].
  apply (normalize_from_fixed out []); [now rewrite Hk | intros k _ [] | exact Hn].
Qed.

Lemma normalize_is_idempotent_witness :
  map fst [("Name", JStr "Doe"); ("#", JNum 12); ("Starter", JNum 1);
           ("MP", JStr "31:07"); ("FGM", JNum 0); ("PTS", JNum 7)]
  = map fst [("Name", JStr "Doe"); ("#", JStr "12"); ("Starter", JStr "*");
             ("MP", JStr "31:07"); ("FGM", JStr ""); ("PTS", JStr "007")]
  /\ Forall (fun kv => normal_value (snd kv) = true)
            [("Name", JStr "Doe"); ("#", JNum 12); ("Starter", JNum 1);
             ("MP", JStr "31:07"); ("FGM", JNum 0); ("PTS", JNum 7)]
  /\ normalize_player_stats
       [("Name", JStr "Doe"); ("#", JNum 12); ("Starter", JNum 1);
        ("MP", JStr "31:07"); ("FGM", JNum 0); ("PTS", JNum 7)]
     = inr [("Name", JStr "Doe"); ("#", JNum 12); ("Starter", JNum 1);
            ("MP", JStr "31:07"); ("FGM", JNum 0); ("PTS", JNum 7)].
Proof.
  apply (normalize_is_idempotent
           [("Name", JStr "Doe"); ("#", JStr "12"); ("Starter", JStr "*");
            ("MP", JStr "31:07"); ("FGM", JStr ""); ("PTS", JStr "007")]).
  - repeat constructor; simpl; intuition discriminate.
  - vm_compute. reflexivity.
Defined.

Lemma digits_value_decimal (s : string) :
  all_chars is_decimal s = true ->
  forall acc, exists n, digits_value s acc true = Some n.
Proof.
  induction s as [|c s IH]; intros H acc; simpl.
  - now exists acc.
  - simpl in H. apply andb_true_iff in H as [Hc Hs].
    unfold is_decimal in Hc. destruct (digit_value c) as [d|]; [|discriminate].
    apply (IH Hs).
Qed.

Lemma py_int_of_digits (s : string) :
  is_empty s = false -> all_chars is_decimal s = true ->
  exists n, py_int s = Some n.
Proof.
  destruct s as [|c s]; [discriminate|]. intros _ H.
  rewrite (py_int_decimal c s H). cbn [digits_value].
  simpl in H. apply andb_true_iff in H as [Hc Hs].
  unfold is_decimal in Hc. destruct (digit_value c) as [d|]; [|discriminate].
  apply (digits_value_decimal s Hs).
Qed.

Lemma digit_char_cases (c : ascii) :
  is_digit_char c = true -> is_superscript c = false -> is_decimal c = true.
Proof.
  destruct c as [[] [] [] [] [] [] [] []]; intros H1 H2;
    try discriminate H1; try discriminate H2; reflexivity.
Qed.

Lemma plain_digits_are_decimal (s : string) :
  all_chars is_digit_char s = true ->
  all_chars (fun c => negb (is_superscript c)) s = true ->
  all_chars is_decimal s = true.
Proof.
  induction s as [|c s IH]; simpl; [reflexivity|]. intros H1 H2.
  apply andb_true_iff in H1 as [Hc1 Hs1]. apply andb_true_iff in H2 as [Hc2 Hs2].
  apply negb_true_iff in Hc2.
  now rewrite (digit_char_cases c Hc1 Hc2), (IH Hs1 Hs2).
Qed.

Lemma normalize_value_plain (v : json) :
  plain_value v = true -> exists v', normalize_value v = inr v'.
Proof.
  destruct v as [| | |s| |]; simpl; try (eexists; reflexivity).
  intros Hp. destruct (isdigit s) eqn:Ed.
  - unfold isdigit in Ed. apply andb_true_iff in Ed as [Hne Hd].
    apply negb_true_iff in Hne.
    destruct (py_int_of_digits s Hne (plain_digits_are_decimal s Hd Hp)) as [n ->].
    now exists (JNum n).
  - destruct (String.eqb s ""); [eexists; reflexivity|].
    destruct (String.eqb s "*"); eexists; reflexivity.
Qed.



Lemma digit_char_facts (c : ascii) :
  is_digit_char c = true ->
  is_int_space c = false /\ Ascii.eqb c "_" = false
  /\ Ascii.eqb c "+" = false /\ Ascii.eqb c "-" = false
  /\ (is_superscript c = true -> digit_value c = None).
Proof.
  destruct c as [[] [] [] [] [] [] [] []]; intros H;
    try discriminate H; repeat split; try discriminate; reflexivity.
Qed.

Lemma int_rstrip_digit_chars (s : string) :
  all_chars is_digit_char s = true -> int_rstrip s = s.
Proof.
  induction s as [|c s IH]; simpl; [reflexivity|].
  intros H. apply andb_true_iff in H as [Hc Hs].
  destruct (digit_char_facts c Hc) as (-> & _). simpl. now rewrite IH.
Qed.

Lemma digits_value_superscript (s : string) :
  all_chars is_digit_char s = true ->
  all_chars (fun c => negb (is_superscript c)) s = false ->
  forall acc b, digits_value s acc b = None.
Proof.
  induction s as [|c s IH]; simpl; [discriminate|]. intros H1 H2 acc b.
  apply andb_true_iff in H1 as [Hc Hs].
  destruct (digit_char_facts c Hc) as (_ & Hu & _ & _ & Hsup).
  destruct (is_superscript c) eqn:E.
  - rewrite (Hsup eq_refl), Hu. reflexivity.
  - simpl in H2. destruct (digit_value c); [now apply IH|].
    rewrite Hu. reflexivity.
Qed.

Lemma py_int_superscript (s : string) :
  isdigit s = true ->
  all_chars (fun c => negb (is_superscript c)) s = false ->
  py_int s = None.
Proof.
  unfold isdigit. intros H Hs. apply andb_true_iff in H as [_ Hd].
  unfold py_int. destruct s as [|c s]; [discriminate Hs|].
  pose proof Hd as Hd'. simpl in Hd'. apply andb_true_iff in Hd' as [Hc _].
  destruct (digit_char_facts c Hc) as (Hsp & _ & Hplus & Hminus & _).
  cbn [int_lstrip]. rewrite Hsp, (int_rstrip_digit_chars _ Hd).
  pose proof (digits_value_superscript (String c s) Hd Hs 0 false) as Hn.
  apply Ascii.eqb_neq in Hplus, Hminus.
  destruct c as [[] [] [] [] [] [] [] []]; try exact Hn; contradiction.
Qed.

(** X27. [normalize_player_stats] raises [ValueError] on a row in which
    the first text that is not plain is all digits for [isdigit] but
    holds a superscript digit: [isdigit] accepts the superscripts one, two
    and three, and [int] does not read them. *)
Theorem normalize_raises_on_superscript_digits
    (before after : dict) (key s : string) :
  Forall (fun kv => plain_value (snd kv) = true) before ->
  isdigit s = true ->
  all_chars (fun c => negb (is_superscript c)) s = false ->
  normalize_player_stats (before ++ (key, JStr s) :: after)
  = inl (OtherError "ValueError").
Proof.
  intros Hb Hd Hs. unfold normalize_player_stats.
  generalize (@nil (string * json)) as acc.
  induction Hb as [|[k v] before Hv Hb IH]; intros acc; cbn [app normalize_from].
  - cbn [normalize_value]. now rewrite Hd, (py_int_superscript s Hd Hs).
  - destruct (normalize_value_plain v Hv) as [v' ->]. apply IH.
Qed.

Lemma normalize_raises_on_superscript_digits_witness :
  normalize_player_stats
    ([("Name", JStr "Doe"); ("#", JStr "12")]
     ++ ("PTS", JStr (String (ascii_of_nat 178) "")) :: [("FGM", JStr "3")])
  = inl (OtherError "ValueError").
Proof.
  apply (normalize_raises_on_superscript_digits
           [("Name", JStr "Doe"); ("#", JStr "12")] [("FGM", JStr "3")]
           "PTS" (String (ascii_of_nat 178) ""));
    [repeat constructor | reflexivity | reflexivity].
Defined.

(** The fields the headers stand for are pairwise distinct. *)
Fixpoint distinct (l : list string) : bool :=
  match l with
  | [] => true
  | x :: l' => negb (existsb (String.eqb x) l') && distinct l'
  end.

Lemma distinct_NoDup (l : list string) : distinct l = true -> NoDup l.
Proof.
  induction l as [|x l IH]; simpl; intros H; constructor.
  - apply andb_true_iff in H as [H _]. apply negb_true_iff in H.
    intros Hin. assert (E : existsb (String.eqb x) l = true).
    { apply existsb_exists. exists x. split; [exact Hin | apply String.eqb_refl]. }
    congruence.
  - apply andb_true_iff in H as [_ H]. now apply IH.
Qed.

Lemma map_headers_from (keys : list string) :
  forall (values : list json) (acc : dict),
    NoDup (map field_of_header keys) ->
    (forall k, In k (map field_of_header keys) -> ~ In k (map fst acc)) ->
    fold_left (fun a kv => dict_set (field_of_header (fst kv)) (snd kv) a)
              (combine keys values) acc
    = acc ++ combine (map field_of_header keys) values.
Proof.
  induction keys as [|k keys IH]; intros values acc Hnd Hfresh.
  - simpl. now rewrite app_nil_r.
  - destruct values as [|v values]; [simpl; now rewrite app_nil_r|].
    cbn [combine fold_left map fst snd]. simpl in Hnd.
    inversion Hnd as [|? ? Hk Hnd']; subst.
    rewrite dict_set_fresh by (apply Hfresh; now left).
    rewrite IH; [now rewrite <- List.app_assoc | exact Hnd' |].
    intros k' Hk' Hin. rewrite map_app, in_app_iff in Hin.
    destruct Hin as [Hin|[<-|[]]]; [|contradiction].
    apply (Hfresh k'); [now right | exact Hin].
Qed.

(** X28. [map_player_headers_to_player_fields] turns a row keyed by the
    headers of the box score, in their order, into the row keyed by the
    names of the fields of [Player], value by value; a key that is no
    header is kept as it is. *)
Theorem headers_become_fields (values : list json) :
  map_player_headers_to_player_fields (combine (map fst header_to_field) values)
  = combine (map snd header_to_field) values
  /\ forall key v,
       ~ In key (map fst header_to_field) ->
       map_player_headers_to_player_fields [(key, v)] = [(key, v)].
Proof.
  split.
  - unfold map_player_headers_to_player_fields.
    assert (E : map field_of_header (map fst header_to_field)
                = map snd header_to_field) by reflexivity.
    rewrite map_headers_from.
    + now rewrite E.
    + rewrite E. apply distinct_NoDup. reflexivity.
    + intros k _ [].
  - intros key v H. unfold map_player_headers_to_player_fields. simpl.
    unfold field_of_header.
    destruct (find (fun hf => String.eqb (fst hf) key) header_to_field)
      as [[h f]|] eqn:E; [|reflexivity].
    apply find_some in E as [Hin He]. simpl in He. apply String.eqb_eq in He.
    subst h. exfalso. apply H. apply in_map_iff. now exists (key, f).
Qed.

Lemma headers_become_fields_witness :
  map_player_headers_to_player_fields
    (combine (map fst header_to_field) [JStr "Doe"; JNum 12; JStr "G"])
  = [("name", JStr "Doe"); ("number", JNum 12); ("position", JStr "G")]
  /\ map_player_headers_to_player_fields [("team_name", JStr "Away U")]
     = [("team_name", JStr "Away U")].
Proof.
  destruct (headers_become_fields [JStr "Doe"; JNum 12; JStr "G"]) as [H1 H2].
  split; [exact H1|]. apply H2.
  simpl. intuition discriminate.
Defined.

(** ** The subscription and the router *)

(** X29. The channel [_subscribe] asks for is the channel the router
    lets through: an object that has a payload and whose channel is the
    subscription of the message [_subscribe] builds is relevant, and an
    object on any other channel is not. *)
Theorem subscription_is_the_routed_channel
    (self : LiveStreamStats) (ns : class_attrs) (client_id : string) :
  exists e subscription,
    snd (_subscribe self ns client_id) = Subscribe e client_id subscription
    /\ channel e = "/meta/subscribe"
    /\ ext e = _websocket_message_ext self
    /\ (forall data,
          _is_relevant_message self [("channel", JStr subscription); ("data", data)]
          = true)
    /\ (forall other data,
          other <> subscription ->
          _is_relevant_message self [("channel", JStr other); ("data", data)]
          = false).
Proof.
  unfold _subscribe, new_subscribe, base_post_init. cbn [snd].
  eexists. eexists. split; [reflexivity|].
  split; [reflexivity|]. split; [reflexivity|]. split.
  - intros data. unfold _is_relevant_message. simpl.
    now rewrite String.eqb_refl.
  - intros other data H. unfold _is_relevant_message. simpl.
    apply String.eqb_neq in H. now rewrite H.
Qed.
